(** * nauta_migrations: the migration manager

    A shallow embedding of [nauta_migrations/migrate.py] (the
    [MigrationManager]) and of the [migrate] command of
    [nauta_migrations/cli.py], with the properties of the migration runner
    proved over it.

    Conventions of the embedding.
    - A Python [str] is a [string]; comparison is by code point, which is
      [String.compare].
    - A [Path] below the migrations directory is represented by its final
      component ([Path.name]); [suffix] and [stem] are pathlib's.
    - The migrations directory is a finite map from entry names to entries;
      a missing directory is [None].
    - The [_migrations] collection is the list of its documents in natural
      order; [_id] values come from a fresh supply. A stored [datetime]
      keeps whole milliseconds, as BSON does.
    - A file of the migrations directory is text that does not compile, or
      code. The source loader of [importlib] caches the bytecode of what
      it compiled in a [__pycache__] folder beside the file, unless
      [sys.dont_write_bytecode] is set; the contents of that folder are
      not represented, and a cached file stands for its source.
    - [open(path, "w")] fails for a name the file system refuses, which
      is a parameter of the world.
    - An exception is a value of [exn]: the name of its class, and
      whether the class derives from [Exception]. A handler
      [except Exception] catches the first kind only; [SystemExit],
      [KeyboardInterrupt] and the like pass through it. User code may
      raise either kind; the interpreter, the file system and the
      database driver raise the first kind.
    - Stateful code is a function [World -> res A * World]: the state after
      a raise is kept, as nothing is rolled back.
    - The manager is connected ([self.db] is set); every round trip to the
      server may find it unreachable and raise.
    - User code (module bodies, [Migration] classes, [upgrade],
      [downgrade]) acts on the user's collections only; the ledger belongs
      to the manager.
    - Console output and the calls made on user code and on the ledger
      collection are recorded in a trace. *)

From stdpp Require Import gmap strings list sorting.
From Stdlib Require Import Ascii.
From Stdlib Require String.

#[global] Set Warnings "-clear-no-such-hyp".

Local Open Scope Z_scope.

(* ===================================================================== *)
(** * Python strings *)
(* ===================================================================== *)

Module PyStr.

(** [len(s)] as an integer. *)
Definition len (s : string) : Z := Z.of_nat (String.length s).

(** [s[i:]] and [s[:i]] for [0 <= i]. *)
Fixpoint drop (i : nat) (s : string) : string :=
  match i, s with
  | O, _ => s
  | S _, EmptyString => EmptyString
  | S i', String _ s' => drop i' s'
  end.

Fixpoint take (i : nat) (s : string) : string :=
  match i, s with
  | O, _ => EmptyString
  | S _, EmptyString => EmptyString
  | S i', String c s' => String c (take i' s')
  end.

(** [s.rfind(c)]: the highest index of [c] in [s], [-1] when absent. *)
Fixpoint rfind (c : ascii) (s : string) : Z :=
  match s with
  | EmptyString => -1
  | String a s' =>
      let r := rfind c s' in
      if r =? -1 then (if Ascii.eqb a c then 0 else -1) else r + 1
  end.

(** [s.startswith(p)]. *)
Definition startswith (p s : string) : bool := String.prefix p s.

(** [s.endswith(p)]. *)
Definition endswith (p s : string) : bool :=
  String.eqb (drop (String.length s - String.length p) s) p
  && (String.length p <=? String.length s)%nat.

(** [c in s] for a one-character [c]. *)
Fixpoint contains (c : ascii) (s : string) : bool :=
  match s with
  | EmptyString => false
  | String a s' => Ascii.eqb a c || contains c s'
  end.

(** [s.split(c, 1)]: at most one split, at the first [c]. *)
Fixpoint split1 (c : ascii) (s : string) : list string :=
  match s with
  | EmptyString => [EmptyString]
  | String a s' =>
      if Ascii.eqb a c then [EmptyString; s']
      else match split1 c s' with
           | h :: t => String a h :: t
           | [] => []
           end
  end.

(** [s.replace(a, b)] for one-character [a] and [b]. *)
Fixpoint replace (a b : ascii) (s : string) : string :=
  match s with
  | EmptyString => EmptyString
  | String c s' => String (if Ascii.eqb c a then b else c) (replace a b s')
  end.

(** ["".join(c for c in s if p(c))]. *)
Fixpoint keep (p : ascii -> bool) (s : string) : string :=
  match s with
  | EmptyString => EmptyString
  | String c s' => if p c then String c (keep p s') else keep p s'
  end.

(** [s.rsplit(c, 1)]: at most one split, at the last [c]. *)
Fixpoint rsplit1 (c : ascii) (s : string) : list string :=
  match s with
  | EmptyString => [EmptyString]
  | String a s' =>
      match rsplit1 c s' with
      | [t] => if Ascii.eqb a c then [EmptyString; t] else [String a t]
      | h :: rest => String a h :: rest
      | [] => []
      end
  end.

End PyStr.

(* ===================================================================== *)
(** * pathlib: [suffix] and [stem] of a final path component *)
(* ===================================================================== *)

(** [PurePath.suffix]: [name[i:]] for [i = name.rfind('.')] when
    [0 < i < len(name) - 1], else the empty string. *)
Definition suffix (name : string) : string :=
  let i := PyStr.rfind "." name in
  if (0 <? i) && (i <? PyStr.len name - 1)
  then PyStr.drop (Z.to_nat i) name else "".

(** [PurePath.stem]: [name[:i]] under the same test, else [name]. *)
Definition stem (name : string) : string :=
  let i := PyStr.rfind "." name in
  if (0 <? i) && (i <? PyStr.len name - 1)
  then PyStr.take (Z.to_nat i) name else name.

(* ===================================================================== *)
(** * [datetime] *)
(* ===================================================================== *)

Record datetime := DateTime {
  year : Z; month : Z; day : Z;
  hour : Z; minute : Z; second : Z; microsecond : Z
}.

#[global] Instance datetime_eq_dec : EqDecision datetime.
Proof. solve_decision. Defined.

Definition dt_fields (t : datetime) : list Z :=
  [year t; month t; day t; hour t; minute t; second t; microsecond t].

(** Lexicographic comparison of the field tuples, which is how naive
    datetimes compare. *)
Fixpoint lex_ltb (a b : list Z) : bool :=
  match a, b with
  | _, [] => false
  | [], _ :: _ => true
  | x :: a', y :: b' => (x <? y) || ((x =? y) && lex_ltb a' b')
  end.

Definition dt_ltb (a b : datetime) : bool := lex_ltb (dt_fields a) (dt_fields b).
Definition dt_le (a b : datetime) : Prop := dt_ltb b a = false.

(** The ranges of a [datetime] whose year prints with four digits. *)
Definition dt_wf (t : datetime) : Prop :=
  1000 <= year t <= 9999 /\ 1 <= month t <= 12 /\ 1 <= day t <= 31 /\
  0 <= hour t < 24 /\ 0 <= minute t < 60 /\ 0 <= second t < 60 /\
  0 <= microsecond t < 1000000.

(** What a BSON datetime keeps of a [datetime]: whole milliseconds. The
    driver encodes [microsecond // 1000] and decodes it times [1000]. *)
Definition to_millis (t : datetime) : datetime :=
  DateTime (year t) (month t) (day t) (hour t) (minute t) (second t)
           (microsecond t / 1000 * 1000).

(** Decimal digits, zero-padded to a fixed width. *)
Definition digit (d : Z) : ascii := ascii_of_N (Z.to_N (48 + d)).

Fixpoint zfill (width : nat) (n : Z) : string :=
  match width with
  | O => EmptyString
  | S w => zfill w (n / 10) +:+ String (digit (n mod 10)) EmptyString
  end.

(** [t.strftime("%Y%m%d%H%M%S")]. *)
Definition strftime (t : datetime) : string :=
  zfill 4 (year t) +:+ zfill 2 (month t) +:+ zfill 2 (day t) +:+
  zfill 2 (hour t) +:+ zfill 2 (minute t) +:+ zfill 2 (second t).

(* ===================================================================== *)
(** * Exceptions and results *)
(* ===================================================================== *)

(** An exception, by the name of its class: [Exc] for a class derived
    from [Exception], [BaseExc] for one derived from [BaseException]
    only ([SystemExit], [KeyboardInterrupt], [GeneratorExit] and what
    user code derives from them). *)
Inductive exn : Type :=
| Exc (cls : string)
| BaseExc (cls : string).

(** A class name alone stands for a class derived from [Exception]. *)
Coercion Exc : string >-> exn.

#[global] Instance exn_eq_dec : EqDecision exn.
Proof. solve_decision. Defined.

(** [isinstance(e, Exception)]. *)
Definition is_Exception (e : exn) : bool :=
  match e with Exc _ => true | BaseExc _ => false end.

Inductive res (A : Type) : Type :=
| Ret (a : A)
| Raise (e : exn).
Arguments Ret {A} a.
Arguments Raise {A} e.

(* ===================================================================== *)
(** * The ledger: documents of the [_migrations] collection *)
(* ===================================================================== *)

Record Doc := mkDoc {
  _id : N;
  version : string;
  name : string;
  description : string;
  applied_at : datetime
}.

#[global] Instance Doc_eq_dec : EqDecision Doc.
Proof. solve_decision. Defined.

(** Ascending order on [applied_at], the key of [sort("applied_at", 1)]. *)
Definition applied_le (a b : Doc) : Prop := dt_le (applied_at a) (applied_at b).

#[global] Instance applied_le_dec : RelDecision applied_le.
Proof. intros a b. unfold applied_le, dt_le. apply _. Defined.

(** A document as the collection keeps it. *)
Definition stored (d : Doc) : Doc :=
  mkDoc (_id d) (version d) (name d) (description d) (to_millis (applied_at d)).

(** [delete_one({"_id": id})]: the first document with that [_id] goes. *)
Fixpoint delete_first (id : N) (l : list Doc) : list Doc :=
  match l with
  | [] => []
  | d :: l' => if N.eqb (_id d) id then l' else d :: delete_first id l'
  end.

(** What the manager and the [migrate] command print. *)
Inductive Msg :=
| MsgNoSpec (n : string)               (* "Error: No se pudo cargar el modulo" *)
| MsgNoClass (n : string)              (* "... no contiene una clase 'Migration'" *)
| MsgLoadError (n : string) (e : exn)  (* "Error cargando migracion" and traceback *)
| MsgApplyError (n : string) (e : exn) (* "Error aplicando migracion" *)
| MsgNothingToRollBack                 (* "No hay migraciones aplicadas para revertir" *)
| MsgNotFound (n : string)             (* "Migracion ... no encontrada" *)
| MsgRollbackError (e : exn)           (* "Error revirtiendo migracion" *)
| EchoNoPending
| EchoPendingCount (k : nat)
| EchoApplying (n : string)
| EchoOk
| EchoFail
| EchoAllApplied
| EchoMigrateError (e : exn).

(** The observable trace of a run: console output and the calls made on
    the collaborators (user code and the ledger collection). *)
Inductive Event :=
| Printed (m : Msg)
| ExecModule (n : string)
| CallUpgrade (n : string)
| CallDowngrade (n : string)
| InsertOne (d : Doc)
| DeleteOne (id : N).

(* ===================================================================== *)
(** * The world the manager runs in *)
(* ===================================================================== *)

Declare Scope M_scope.
Delimit Scope M_scope with M.

Section Manager.

(** The state of the user's collections, on which migration code acts. *)
Context {D : Type}.

(** User code runs against the bound handle; it may mutate the database
    before it raises. *)
Definition Op : Type := D -> res unit * D.

(** An instance of a unit's [Migration] class. *)
Record MigrationObj := mkMigration { upgrade : Op; downgrade : Op }.

(** The namespace of an executed module: its [Migration] attribute, if
    any, is a class whose instantiation is user code too. *)
Record PyModule := mkModule { Migration : option (D -> res MigrationObj * D) }.

(** What a file is to the import system: text that the loader cannot
    turn into code (it raises an error of the class given: [SyntaxError],
    [UnicodeDecodeError], [ImportError] for a bad bytecode file), or code,
    with what executing it as a module does. *)
Inductive Source : Type :=
| Malformed (cls : string)
| Code (body : D -> res PyModule * D).

Inductive Entry :=
| Folder
| File (src : Source).

Definition is_file (e : Entry) : bool :=
  match e with File _ => true | Folder => false end.

Record World := mkWorld {
  migrations_dir : option (gmap string Entry);
  db : D;
  _migrations : list Doc;      (* the ledger, in natural order *)
  next_oid : N;                (* supply of fresh [_id]s *)
  ticks : nat;                 (* interactions with the environment so far *)
  wall_clock : nat -> datetime;(* what [datetime.now()] answers at a tick *)
  outage : nat -> bool;        (* whether the server is unreachable at a tick *)
  trace : list Event;
  dont_write_bytecode : bool;  (* [sys.dont_write_bytecode]: nothing is cached *)
  open_error : string -> option string
                               (* the error of [open(name, "w")] for a name
                                  the file system refuses *)
}.

Definition with_dir (x : option (gmap string Entry)) (w : World) : World :=
  mkWorld x (db w) (_migrations w) (next_oid w) (ticks w)
          (wall_clock w) (outage w) (trace w)
          (dont_write_bytecode w) (open_error w).
Definition with_db (x : D) (w : World) : World :=
  mkWorld (migrations_dir w) x (_migrations w) (next_oid w) (ticks w)
          (wall_clock w) (outage w) (trace w)
          (dont_write_bytecode w) (open_error w).
Definition with_ledger (x : list Doc) (n : N) (w : World) : World :=
  mkWorld (migrations_dir w) (db w) x n (ticks w)
          (wall_clock w) (outage w) (trace w)
          (dont_write_bytecode w) (open_error w).
Definition with_ticks (x : nat) (w : World) : World :=
  mkWorld (migrations_dir w) (db w) (_migrations w) (next_oid w) x
          (wall_clock w) (outage w) (trace w)
          (dont_write_bytecode w) (open_error w).
Definition with_trace (x : list Event) (w : World) : World :=
  mkWorld (migrations_dir w) (db w) (_migrations w) (next_oid w) (ticks w)
          (wall_clock w) (outage w) x
          (dont_write_bytecode w) (open_error w).

(** ** The state-and-exception monad *)

Definition M (A : Type) : Type := World -> res A * World.

Definition ret {A} (a : A) : M A := fun w => (Ret a, w).
Definition raise {A} (e : exn) : M A := fun w => (Raise e, w).
Definition bind {A B} (m : M A) (k : A -> M B) : M B :=
  fun w => match m w with
           | (Ret a, w') => k a w'
           | (Raise e, w') => (Raise e, w')
           end.

(** [try: m except Exception as e: h e]. An exception that is not an
    instance of [Exception] is not caught. *)
Definition try_except {A} (m : M A) (h : exn -> M A) : M A :=
  fun w => match m w with
           | (Ret a, w') => (Ret a, w')
           | (Raise e, w') => if is_Exception e then h e w' else (Raise e, w')
           end.

Notation "x <- m ;; k" := (bind m (fun x => k))
  (at level 100, m at next level, k at level 200, right associativity) : M_scope.
Notation "m ;; k" := (bind m (fun _ => k))
  (at level 100, k at level 200, right associativity) : M_scope.
Local Open Scope M_scope.

(** ** Primitive effects *)

Definition emit (e : Event) : M unit :=
  fun w => (Ret tt, with_trace (trace w ++ [e]) w).
Definition print (m : Msg) : M unit := emit (Printed m).

Definition tick : M nat :=
  fun w => (Ret (ticks w), with_ticks (S (ticks w)) w).

(** [datetime.now()]. *)
Definition now : M datetime :=
  i <- tick ;; fun w => (Ret (wall_clock w i), w).

(** A round trip to the server: it raises when the server is unreachable. *)
Definition db_call {A} (op : M A) : M A :=
  i <- tick ;;
  fun w => if outage w i then (Raise "ServerSelectionTimeoutError", w) else op w.

(** [collection.find().sort("applied_at", 1)]. *)
Definition find_sorted : M (list Doc) :=
  db_call (fun w => (Ret (merge_sort applied_le (_migrations w)), w)).

(** [collection.insert_one({...})]: the document gets a fresh [_id], and
    the collection keeps it as [stored]. *)
Definition insert_one (v n d : string) (t : datetime) : M unit :=
  fun w =>
    let doc := mkDoc (next_oid w) v n d t in
    (emit (InsertOne doc) ;;
     db_call (fun w => (Ret tt, with_ledger (_migrations w ++ [stored doc])
                                            (N.succ (next_oid w)) w))) w.

(** [collection.delete_one({"_id": id})]. *)
Definition delete_one (id : N) : M unit :=
  emit (DeleteOne id) ;;
  db_call (fun w => (Ret tt, with_ledger (delete_first id (_migrations w))
                                         (next_oid w) w)).

(** Running user code on the bound handle. *)
Definition call {A} (f : D -> res A * D) : M A :=
  fun w => let '(r, d) := f (db w) in (r, with_db d w).

(** What the migrations directory holds under a name. *)
Definition entry_at (w : World) (n : string) : option Entry :=
  migrations_dir w ≫= (fun d => d !! n).

(** Reading a file of the migrations directory. *)
Definition read_source (n : string) : M Source :=
  fun w => match entry_at w n with
           | Some (File src) => (Ret src, w)
           | Some Folder => (Raise "IsADirectoryError", w)
           | None => (Raise "FileNotFoundError", w)
           end.

(** [open(filepath, "w")] and [write]: the file is created or truncated,
    unless the directory is missing, the file system refuses the name, or
    the name is that of a folder. *)
Definition write_file (n : string) (src : Source) : M unit :=
  fun w => match migrations_dir w with
           | None => (Raise "FileNotFoundError", w)
           | Some d =>
               match open_error w n with
               | Some cls => (Raise cls, w)
               | None =>
                   match d !! n with
                   | Some Folder => (Raise "IsADirectoryError", w)
                   | _ => (Ret tt, with_dir (Some (<[n := File src]> d)) w)
                   end
               end
           end.

(** ** [MigrationManager.get_migration_files] *)

(** The test of the list comprehension. *)
Definition is_migration_file (f : string * Entry) : bool :=
  is_file f.2 && String.eqb (suffix f.1) ".py"
  && negb (PyStr.startswith "__" f.1).

(** The body after the existence test, on the listing [iterdir()] gives,
    in whatever order it gives it. *)
Definition discover (listing : list (string * Entry)) : list string :=
  merge_sort String.le (filter is_migration_file listing).*1.

Definition migration_files (dir : option (gmap string Entry)) : list string :=
  match dir with
  | None => []
  | Some d => discover (map_to_list d)
  end.

Definition get_migration_files : M (list string) :=
  fun w => (Ret (migration_files (migrations_dir w)), w).

(** ** [get_applied_migrations], [get_pending_migrations] *)

Definition get_applied_migrations : M (list Doc) := find_sorted.

Definition get_pending_migrations : M (list string) :=
  docs <- get_applied_migrations ;;
  let applied : gset string := list_to_set (name <$> docs) in
  all_migrations <- get_migration_files ;;
  ret (filter (fun m => m ∉ applied) all_migrations).

(** ** [load_migration] *)

(** [spec_from_file_location] finds a loader by the suffix of the
    location: extension modules, source files, bytecode files. *)
Definition has_loader (n : string) : bool :=
  existsb (fun sfx => PyStr.endswith sfx n) [".so"; ".py"; ".pyc"].

(** The source loader is the one found for a location ending in [.py]. *)
Definition is_source (n : string) : bool := PyStr.endswith ".py" n.

(** The source loader caches the bytecode of what it compiled: it makes
    the [__pycache__] folder when the directory has no entry of that
    name, and writes the file into it; a failure to do so is ignored. *)
Definition cache_bytecode : M unit :=
  fun w => match migrations_dir w with
           | Some d =>
               if dont_write_bytecode w then (Ret tt, w)
               else match d !! "__pycache__" with
                    | None =>
                        (Ret tt,
                         with_dir (Some (<["__pycache__" := Folder]> d)) w)
                    | Some _ => (Ret tt, w)
                    end
           | None => (Ret tt, w)
           end.

(** [spec.loader.exec_module(module)]: get the code of the file, cache
    it when the loader is the source loader, and execute it. *)
Definition exec_module (filepath : string) : M PyModule :=
  emit (ExecModule filepath) ;;
  src <- read_source filepath ;;
  match src with
  | Malformed cls => raise cls
  | Code body =>
      (if is_source filepath then cache_bytecode else ret tt) ;;
      call body
  end.

Definition load_migration (filepath : string) : M (option MigrationObj) :=
  try_except
    (if negb (has_loader filepath)
     then print (MsgNoSpec filepath) ;; ret None
     else
       module <- exec_module filepath ;;
       match Migration module with
       | None => print (MsgNoClass filepath) ;; ret None
       | Some migration_class =>
           migration <- call migration_class ;;
           ret (Some migration)
       end)
    (fun e => print (MsgLoadError filepath e) ;; ret None).

(** ** [apply_migration] *)

(** [stem.split("_", 1)[1] if "_" in stem else ""]. *)
Definition description_of (stm : string) : res string :=
  if PyStr.contains "_" stm
  then match PyStr.split1 "_" stm !! 1%nat with
       | Some s => Ret s
       | None => Raise "IndexError"
       end
  else Ret "".

Definition lift {A} (r : res A) : M A := fun w => (r, w).

Definition apply_migration (filepath : string) : M bool :=
  try_except
    (migration <- load_migration filepath ;;
     match migration with
     | None => ret false
     | Some migration =>
         emit (CallUpgrade filepath) ;;
         call (upgrade migration) ;;
         descr <- lift (description_of (stem filepath)) ;;
         t <- now ;;
         insert_one (stem filepath) filepath descr t ;;
         ret true
     end)
    (fun e => print (MsgApplyError filepath e) ;; ret false).

(** ** [rollback_migration] *)

(** Python's truth value of an [Optional[str]]. *)
Definition truthy (s : option string) : bool :=
  match s with
  | None => false
  | Some s => negb (String.eqb s "")
  end.

(** The selection of the record: [applied[-1]], or the first record of
    that name, [None] when there is none. *)
Definition select_record (applied : list Doc) (migration_name : option string)
  : res (option Doc) :=
  if negb (truthy migration_name)
  then match last applied with
       | Some r => Ret (Some r)
       | None => Raise "IndexError"
       end
  else Ret (List.find (fun m => String.eqb (name m) (default "" migration_name))
                      applied).

(** The tail of [rollback_migration] once the record is selected: load
    the unit of that name, run its [downgrade], delete the record. *)
Definition downgrade_and_erase (migration_record : Doc) : M bool :=
  migration <- load_migration (name migration_record) ;;
  match migration with
  | None => ret false
  | Some migration =>
      emit (CallDowngrade (name migration_record)) ;;
      call (downgrade migration) ;;
      delete_one (_id migration_record) ;;
      ret true
  end.

Definition rollback_failed (e : exn) : M bool :=
  print (MsgRollbackError e) ;; ret false.

Definition rollback_migration (migration_name : option string) : M bool :=
  try_except
    (applied <- get_applied_migrations ;;
     match applied with
     | [] => print MsgNothingToRollBack ;; ret false
     | _ :: _ =>
         migration_record <- lift (select_record applied migration_name) ;;
         match migration_record with
         | None => print (MsgNotFound (default "" migration_name)) ;; ret false
         | Some migration_record => downgrade_and_erase migration_record
         end
     end)
    rollback_failed.

(** ** [get_status] *)

Record Status := mkStatus {
  total : nat;
  applied : nat;
  pending : nat;
  applied_migrations : list Doc;
  pending_migrations : list string
}.

Definition get_status : M Status :=
  all_migrations <- get_migration_files ;;
  applied <- get_applied_migrations ;;
  let applied_names : gset string := list_to_set (name <$> applied) in
  let pending := filter (fun m => m ∉ applied_names) all_migrations in
  ret (mkStatus (length all_migrations) (length applied) (length pending)
                applied pending).

(** ** The [migrate] command of the command line *)

(** The [for] loop over the pending files. *)
Fixpoint apply_each (pending : list string) : M unit :=
  match pending with
  | [] => ret tt
  | migration_file :: rest =>
      print (EchoApplying migration_file) ;;
      ok <- apply_migration migration_file ;;
      if ok then print EchoOk ;; apply_each rest
      else print EchoFail ;; raise "Abort"
  end.

Definition migrate : M unit :=
  try_except
    (pending <- get_pending_migrations ;;
     match pending with
     | [] => print EchoNoPending
     | _ :: _ =>
         print (EchoPendingCount (length pending)) ;;
         apply_each pending ;;
         print EchoAllApplied
     end)
    (fun e => print (EchoMigrateError e) ;; raise "Abort").

(** ** [create_migration] *)

Section Create.

(** Python's [str.lower] and [str.isalnum], and the module the written
    template gives when executed. *)
Variable lower : string -> string.
Variable isalnum : ascii -> bool.
Variable template : string -> datetime -> Source.

Definition safe_description (description : string) : string :=
  let safe_description :=
    PyStr.replace "-" "_" (PyStr.replace " " "_" (lower description)) in
  PyStr.keep (fun c => isalnum c || Ascii.eqb c "_") safe_description.

Definition create_migration (description : string) : M string :=
  t <- now ;;
  let timestamp := strftime t in
  let filename :=
    timestamp +:+ "_" +:+ safe_description description +:+ ".py" in
  created <- now ;;
  write_file filename (template description created) ;;
  ret filename.

End Create.

End Manager.

Arguments MigrationObj D : clear implicits.
Arguments PyModule D : clear implicits.
Arguments Source D : clear implicits.
Arguments Entry D : clear implicits.
Arguments World D : clear implicits.
Arguments Status : clear implicits.

Local Open Scope M_scope.
Notation "x <- m ;; k" := (bind m (fun x => k))
  (at level 100, m at next level, k at level 200, right associativity) : M_scope.
Notation "m ;; k" := (bind m (fun _ => k))
  (at level 100, k at level 200, right associativity) : M_scope.

(* ===================================================================== *)
(** * Concrete units and worlds for the examples *)
(* ===================================================================== *)

Module Sample.

(** [str.lower] and [str.isalnum] on ASCII text. *)
Definition lower_char (c : ascii) : ascii :=
  let n := N_of_ascii c in
  if ((65 <=? n) && (n <=? 90))%N then ascii_of_N (n + 32) else c.

Fixpoint lower (s : string) : string :=
  match s with
  | EmptyString => EmptyString
  | String c s' => String (lower_char c) (lower s')
  end.

Definition isalnum (c : ascii) : bool :=
  let n := N_of_ascii c in
  (((48 <=? n) && (n <=? 57)) || ((65 <=? n) && (n <=? 90))
   || ((97 <=? n) && (n <=? 122)))%N.

(** The user database of the examples is a counter. *)
Definition unit_of (up down : Op (D:=Z)) : Source Z :=
  Code (fun d =>
    (Ret (mkModule (Some (fun d => (Ret (mkMigration up down), d)))), d)).

(** A unit whose operations succeed. *)
Definition good : Source Z :=
  unit_of (fun d => (Ret tt, d + 1)) (fun d => (Ret tt, d - 1)).

(** A unit whose operations raise after touching the database. *)
Definition bad : Source Z :=
  unit_of (fun d => (Raise "OperationFailure", d + 100))
          (fun d => (Raise "OperationFailure", d - 100)).

(** A module without a [Migration] class. *)
Definition classless : Source Z := Code (fun d => (Ret (mkModule None), d)).

(** A file that does not compile. *)
Definition broken : Source Z := Malformed "SyntaxError".

(** The module of the written template: both operations are [pass]. *)
Definition template (description : string) (created : datetime) : Source Z :=
  unit_of (fun d => (Ret tt, d)) (fun d => (Ret tt, d)).

Definition clock (i : nat) : datetime :=
  DateTime 2025 11 5 15 15 (Z.of_nat i) 0.

(** The file system refuses a name of more than 255 bytes. *)
Definition name_too_long (n : string) : option string :=
  if (255 <? String.length n)%nat then Some "OSError" else None.

Definition world (dir : option (gmap string (Entry Z))) (ledger : list Doc)
  : World Z :=
  mkWorld dir 0 ledger (N.of_nat (length ledger)) 0 clock (fun _ => false) []
          false name_too_long.

Definition init : string := "20250101000000_init.py".
Definition add_index : string := "20250102000000_add_index.py".

Definition two_units : gmap string (Entry Z) :=
  {[ add_index := File good; init := File good;
     "__init__.py" := File good; "README.md" := File classless;
     "__pycache__" := Folder ]}.

Definition one_bad_unit : gmap string (Entry Z) :=
  {[ init := File bad ]}.

Definition t1 : datetime := DateTime 2025 1 1 10 0 0 0.
Definition t2 : datetime := DateTime 2025 1 1 10 0 5 0.

Definition docA : Doc := mkDoc 0 "20250101000000_init" init "init" t1.
Definition docB : Doc := mkDoc 1 "20250102000000_add_index" add_index "add_index" t2.

End Sample.

Module MoreSamples.

(** A unit whose [Migration] class overrides neither operation. *)
Definition abstract : Source Z :=
  Sample.unit_of (fun d => (Raise "NotImplementedError", d))
                 (fun d => (Raise "NotImplementedError", d)).

(** The instance that loading [Sample.good] gives. *)
Definition good_instance : MigrationObj Z :=
  mkMigration (fun d => (Ret tt, d + 1)) (fun d => (Ret tt, d - 1)).

(** A world whose server is unreachable at the ticks listed. *)
Definition world_down (down : list nat) (dir : option (gmap string (Entry Z)))
    (ledger : list Doc) : World Z :=
  mkWorld dir 0 ledger (N.of_nat (length ledger)) 0 Sample.clock
          (fun i => bool_decide (i ∈ down)) [] false Sample.name_too_long.

Definition abstract_unit : gmap string (Entry Z) :=
  {[ Sample.init := File abstract ]}.





(** A clock that stays within one second and reads microseconds. *)
Definition fine_clock (i : nat) : datetime :=
  DateTime 2025 11 5 15 15 29 (123456 + Z.of_nat i).

Definition fine_world (dir : option (gmap string (Entry Z)))
    (ledger : list Doc) : World Z :=
  mkWorld dir 0 ledger (N.of_nat (length ledger)) 0 fine_clock
          (fun _ => false) [] false Sample.name_too_long.

(** Environments of the process. *)
Definition env_no_path : gmap string string :=
  {[ "MONGODB_URL" := "mongodb://localhost:27017" ]}.
Definition env_with_options : gmap string string :=
  {[ "MONGODB_URL" := "mongodb://db.example.org/shop?retryWrites=true" ]}.

End MoreSamples.

(* ===================================================================== *)
(** * [BaseMigration] *)
(* ===================================================================== *)

Section Base.

Context {D : Type}.

(** An instance of a class that overrides neither operation: both raise
    [NotImplementedError]. *)
Definition BaseMigration : MigrationObj D :=
  mkMigration (fun d => (Raise "NotImplementedError", d))
              (fun d => (Raise "NotImplementedError", d)).

End Base.

(* ===================================================================== *)
(** * Configuration: the settings of [Config.__init__] *)
(* ===================================================================== *)

Module Config.

(** The three settings read from the process environment. *)
Record t := mk {
  mongodb_url : string;
  mongodb_database : string;
  migrations_dir : string
}.

(** [os.getenv(key, default)] on an environment. *)
Definition getenv (env : gmap string string) (key : string)
    (default : option string) : option string :=
  match env !! key with
  | Some v => Some v
  | None => default
  end.

(** The block that settles the database name: the value of
    [MONGODB_DATABASE] when it is set and not empty, else the part of the
    URL after its last slash when that part is not empty and holds no
    question mark, else ["nauta_db"]. *)
Definition database (mongodb_database : option string) (mongodb_url : string)
  : string :=
  if negb (truthy mongodb_database) then
    if PyStr.contains "/" mongodb_url then
      let url_parts := PyStr.rsplit1 "/" mongodb_url in
      if (1 <? length url_parts)%nat && truthy (url_parts !! 1%nat)
         && negb (PyStr.contains "?" (default "" (url_parts !! 1%nat)))
      then default "" (url_parts !! 1%nat)
      else "nauta_db"
    else "nauta_db"
  else default "" mongodb_database.

(** The settings [Config()] holds for an environment (the creation of the
    migrations directory that follows is left out here). *)
Definition settings (env : gmap string string) : t :=
  let mongodb_url :=
    default "" (getenv env "MONGODB_URL"
                       (Some "mongodb://localhost:27017/nauta_db")) in
  let mongodb_database := getenv env "MONGODB_DATABASE" None in
  let migrations_dir :=
    default "" (getenv env "MIGRATIONS_DIR" (Some "migrations")) in
  mk mongodb_url (database mongodb_database mongodb_url) migrations_dir.

End Config.

(* ===================================================================== *)
(** * Vocabulary of the statements *)
(* ===================================================================== *)

(** The part of [s] after its first [c]; empty when [s] has no [c]. *)
Fixpoint after_first (c : ascii) (s : string) : string :=
  match s with
  | EmptyString => EmptyString
  | String a s' => if Ascii.eqb a c then s' else after_first c s'
  end.

Section Vocabulary.

Context {D : Type}.

(** The directory [dir'] is [dir] up to the bytecode cache: the same, or
    [dir] with a [__pycache__] folder where it had no entry of that
    name. *)
Definition cached (dir dir' : option (gmap string (Entry D))) : Prop :=
  dir' = dir
  ∨ ∃ d, dir = Some d ∧ d !! "__pycache__" = None
         ∧ dir' = Some (<["__pycache__" := Folder]> d).

(** A step that may touch the user's collections, the trace and the
    bytecode cache only. *)
Definition user_step (w w' : World D) : Prop :=
  cached (migrations_dir w) (migrations_dir w')
  ∧ _migrations w' = _migrations w
  ∧ next_oid w' = next_oid w ∧ ticks w' = ticks w
  ∧ wall_clock w' = wall_clock w ∧ outage w' = outage w
  ∧ dont_write_bytecode w' = dont_write_bytecode w
  ∧ open_error w' = open_error w.

(** A result that is an exception no [except Exception] catches. *)
Definition escapes {A} (r : res A) : Prop :=
  ∃ e, r = Raise e ∧ is_Exception e = false.

(** The set of unit names recorded as applied. *)
Definition applied_names (w : World D) : gset string :=
  list_to_set (name <$> _migrations w).

(** The full ordered sequence of units. *)
Definition units (w : World D) : list string :=
  migration_files (migrations_dir w).

(** The applied names are exactly the first [k] units. *)
Definition applied_prefix (k : nat) (w : World D) : Prop :=
  applied_names w = list_to_set (take k (units w)).

Definition prefix_consistent (w : World D) : Prop :=
  ∃ k, applied_prefix k w.

(** The ledger entry [apply_migration] leaves for a path in a world:
    the time is the reading of the clock, as the collection keeps it. *)
Definition entry_for (filepath : string) (w : World D) : Doc :=
  mkDoc (next_oid w) (stem filepath) filepath
        (after_first "_" (stem filepath))
        (to_millis (wall_clock w (ticks w))).

(** The units of the directory that have no ledger entry, in order. *)
Definition pending_of (w : World D) : list string :=
  filter (fun m => m ∉ applied_names w) (units w).

(** Calls on the collaborators, as opposed to console output. *)
Definition is_call (e : Event) : bool :=
  match e with Printed _ => false | _ => true end.

(** Ledger writes, and executions of a unit's operations. *)
Definition is_write (e : Event) : bool :=
  match e with InsertOne _ | DeleteOne _ => true | _ => false end.
Definition is_operation (e : Event) : bool :=
  match e with CallUpgrade _ | CallDowngrade _ => true | _ => false end.

(** A second [migrate] right after a first one leaves the ledger as it is
    and neither attempts a ledger write nor runs an operation of a
    unit. *)
Definition second_run_idle (w : World D) : Prop :=
  let w1 := (migrate w).2 in
  let w2 := (migrate w1).2 in
  _migrations w2 = _migrations w1
  ∧ ∃ evs, trace w2 = trace w1 ++ evs
           ∧ Forall (fun e => is_write e = false ∧ is_operation e = false) evs.

(** The server answers every round trip. *)
Definition reachable (w : World D) : Prop := ∀ i, outage w i = false.

(** No document of the ledger bears the [_id] the server gives next. *)
Definition fresh_ids (w : World D) : Prop :=
  ∀ d, d ∈ _migrations w → _id d ≠ next_oid w.

(** What a run on the pending units [fs] may leave in the trace: console
    output, and the execution, the [upgrade] and the recording of units
    among [fs]. *)
Definition forward_event (fs : list string) (e : Event) : Prop :=
  match e with
  | Printed _ => True
  | ExecModule n | CallUpgrade n => n ∈ fs
  | InsertOne d => name d ∈ fs
  | CallDowngrade _ | DeleteOne _ => False
  end.

(** A unit whose loading leaves the database alone and always gives the
    same instance. *)
Definition loads_as (src : Source D) (m : MigrationObj D) : Prop :=
  ∃ body, src = Code body
    ∧ ∀ d, ∃ cls, body d = (Ret (mkModule (Some cls)), d) ∧ cls d = (Ret m, d).

End Vocabulary.

(** The description as the naming rule words it: one pass over the
    lowercased text, in which a space or a hyphen becomes an underscore,
    an alphanumeric character or an underscore stays, and any other
    character goes. *)
Fixpoint sanitized (isalnum : ascii -> bool) (s : string) : string :=
  match s with
  | EmptyString => EmptyString
  | String c s' =>
      if Ascii.eqb c " " || Ascii.eqb c "-" then String "_" (sanitized isalnum s')
      else if isalnum c || Ascii.eqb c "_" then String c (sanitized isalnum s')
      else sanitized isalnum s'
  end.

(** All characters of a string are decimal digits. *)
Fixpoint all_digits (s : string) : bool :=
  match s with
  | EmptyString => true
  | String c s' =>
      ((48 <=? N_of_ascii c) && (N_of_ascii c <=? 57))%N && all_digits s'
  end.

(** The fields of a [datetime] down to the second, which the timestamp of
    a file name keeps. *)
Definition dt_seconds (t : datetime) : list Z :=
  [year t; month t; day t; hour t; minute t; second t].

(* ===================================================================== *)
(** * Discovery of migration units *)
(* ===================================================================== *)

Section Discovery.

Context {D : Type}.
Implicit Types (d : gmap string (Entry D)) (n : string).

Lemma elem_of_discover (listing : list (string * Entry D)) n :
  n ∈ discover listing ↔
  ∃ e, (n, e) ∈ listing ∧ is_migration_file (n, e) = true.
Proof.
  unfold discover. rewrite merge_sort_Permutation, list_elem_of_fmap. split.
  - intros [[n' e] [-> [Hp Hin]%list_elem_of_filter]]. simpl.
    exists e. split; [done|]. by apply Is_true_true.
  - intros (e & Hin & Hp). exists (n, e). split; [done|].
    apply list_elem_of_filter. split; [by apply Is_true_true|done].
Qed.

Lemma discover_sorted (listing : list (string * Entry D)) :
  StronglySorted String.le (discover listing).
Proof. apply (StronglySorted_merge_sort _). Qed.

Lemma discover_NoDup (listing : list (string * Entry D)) :
  NoDup listing.*1 → NoDup (discover listing).
Proof.
  intros Hnd. unfold discover. rewrite merge_sort_Permutation.
  eapply sublist_NoDup; [exact Hnd|apply fmap_sublist, sublist_filter].
Qed.

Lemma discover_order_irrelevant (l1 l2 : list (string * Entry D)) :
  l1 ≡ₚ l2 → discover l1 = discover l2.
Proof.
  intros Hp. apply (StronglySorted_unique String.le);
    [apply discover_sorted..|].
  unfold discover. rewrite !merge_sort_Permutation. by rewrite Hp.
Qed.

Lemma is_migration_file_true n (e : Entry D) :
  is_migration_file (n, e) = true ↔
  (∃ src, e = File src) ∧ suffix n = ".py" ∧ PyStr.startswith "__" n = false.
Proof.
  unfold is_migration_file. simpl.
  rewrite !andb_true_iff, negb_true_iff, String.eqb_eq.
  destruct e as [|src]; simpl; split.
  - by intros [[? _] _].
  - by intros [[? [=]] _].
  - intros [[_ ?] ?]. eauto.
  - intros (_ & ? & ?). done.
Qed.

Lemma elem_of_migration_files d n :
  n ∈ migration_files (Some d) ↔
  (∃ src, d !! n = Some (File src)) ∧ suffix n = ".py"
  ∧ PyStr.startswith "__" n = false.
Proof.
  simpl. rewrite elem_of_discover. split.
  - intros (e & Hin%elem_of_map_to_list & Hf%is_migration_file_true).
    destruct Hf as ([src ->] & ? & ?). eauto.
  - intros ([src Hin] & ? & ?). exists (File src). split.
    + by apply elem_of_map_to_list.
    + apply is_migration_file_true. eauto.
Qed.

Lemma migration_files_NoDup (dir : option (gmap string (Entry D))) :
  NoDup (migration_files dir).
Proof.
  destruct dir as [d|]; simpl; [|constructor].
  apply discover_NoDup, NoDup_fst_map_to_list.
Qed.

Lemma migration_files_sorted (dir : option (gmap string (Entry D))) :
  StronglySorted String.le (migration_files dir).
Proof.
  destruct dir as [d|]; simpl; [apply discover_sorted|constructor].
Qed.

(** C2. [get_migration_files] never fails and leaves the world alone, so
    that a second call returns what the first returned; for a missing
    directory it returns the empty list; for a directory it returns
    exactly the names of the entries that are files, have suffix [.py]
    and do not start with a double underscore, each once, sorted ascending
    by name; and the result does not depend on the order in which the
    directory is listed. *)
Theorem get_migration_files_spec (w : World D) :
  get_migration_files w = (Ret (migration_files (migrations_dir w)), w)
  ∧ get_migration_files (get_migration_files w).2 = get_migration_files w
  ∧ migration_files (D:=D) None = []
  ∧ ∀ d,
      (∀ n, n ∈ migration_files (Some d) ↔
            (∃ src, d !! n = Some (File src)) ∧ suffix n = ".py"
            ∧ PyStr.startswith "__" n = false)
      ∧ NoDup (migration_files (Some d))
      ∧ StronglySorted String.le (migration_files (Some d))
      ∧ ∀ listing, listing ≡ₚ map_to_list d →
                   discover listing = migration_files (Some d).
Proof.
  split; [done|]. split; [done|]. split; [done|]. intros d.
  split; [apply elem_of_migration_files|].
  split; [apply migration_files_NoDup|].
  split; [apply migration_files_sorted|].
  intros listing Hp. simpl. by apply discover_order_irrelevant.
Qed.

End Discovery.

(* ===================================================================== *)
(** * The bytecode cache *)
(* ===================================================================== *)

Section Cache.

Context {D : Type}.
Implicit Types (dir : option (gmap string (Entry D))) (w : World D)
  (n : string).

Lemma cached_refl dir : cached dir dir.
Proof. by left. Qed.

Lemma cached_trans dir1 dir2 dir3 :
  cached dir1 dir2 → cached dir2 dir3 → cached dir1 dir3.
Proof.
  intros [->|(d & -> & Hn & ->)] [->|(d' & Hd' & Hn' & ->)].
  - by left.
  - right. by exists d'.
  - right. by exists d.
  - injection Hd' as <-. by rewrite lookup_insert_eq in Hn'.
Qed.

(** The cache takes no entry away and changes none. *)
Lemma cached_lookup dir dir' n (e : Entry D) :
  cached dir dir' →
  dir ≫= (fun d => d !! n) = Some e → dir' ≫= (fun d => d !! n) = Some e.
Proof.
  intros [->|(d & -> & Hn & ->)]; [done|]. simpl. intros He.
  rewrite lookup_insert_ne; [done|]. intros <-. congruence.
Qed.

Lemma cached_lookup_ne dir dir' n :
  cached dir dir' → n ≠ "__pycache__" →
  dir' ≫= (fun d => d !! n) = dir ≫= (fun d => d !! n).
Proof.
  intros [->|(d & -> & Hn & ->)] Hne; [done|]. simpl.
  by rewrite lookup_insert_ne.
Qed.

(** The cache is a folder: discovery does not see it. *)
Lemma cached_files dir dir' :
  cached dir dir' → migration_files dir' = migration_files dir.
Proof.
  intros [->|(d & -> & Hn & ->)]; [done|]. simpl.
  rewrite (discover_order_irrelevant _ (("__pycache__", Folder) :: map_to_list d))
    by (by apply map_to_list_insert).
  unfold discover. by rewrite filter_cons_False by (by intros []).
Qed.

Lemma user_step_refl w : user_step w w.
Proof. split; [apply cached_refl|done]. Qed.

Lemma user_step_trace w evs : user_step w (with_trace evs w).
Proof. split; [apply cached_refl|done]. Qed.

Lemma user_step_trans w1 w2 w3 :
  user_step w1 w2 → user_step w2 w3 → user_step w1 w3.
Proof.
  intros (Hd & Hm & Ho & Ht & Hc & Hu & Hb & He)
         (Hd' & Hm' & Ho' & Ht' & Hc' & Hu' & Hb' & He').
  split; [by eapply cached_trans|]. split_and!; congruence.
Qed.

Lemma user_step_units w w' : user_step w w' → units w' = units w.
Proof. intros [Hd _]. by apply cached_files. Qed.

Lemma cached_pending w w' :
  cached (migrations_dir w) (migrations_dir w') →
  _migrations w' = _migrations w → pending_of w' = pending_of w.
Proof.
  intros Hd Hm. unfold pending_of, units, applied_names.
  by rewrite (cached_files _ _ Hd), Hm.
Qed.

Lemma user_step_entry w w' n (e : Entry D) :
  user_step w w' → entry_at w n = Some e → entry_at w' n = Some e.
Proof. intros [Hd _]. by apply cached_lookup. Qed.

Lemma cache_bytecode_step w :
  ∃ w', cache_bytecode w = (Ret tt, w') ∧ user_step w w'
        ∧ db w' = db w ∧ trace w' = trace w.
Proof.
  unfold cache_bytecode.
  destruct (migrations_dir w) as [d|] eqn:Hd;
    [|exists w; split_and!; try done; apply user_step_refl].
  destruct (dont_write_bytecode w);
    [exists w; split_and!; try done; apply user_step_refl|].
  destruct (d !! "__pycache__") as [e|] eqn:Hn;
    [exists w; split_and!; try done; apply user_step_refl|].
  eexists. split; [done|]. split; [|done].
  split; [|done]. right. exists d. by rewrite Hd.
Qed.

End Cache.

(* ===================================================================== *)
(** * Loading a unit *)
(* ===================================================================== *)

Section Loading.

Context {D : Type}.
Implicit Types (w : World D) (filepath : string).

Lemma load_migration_no_loader_eq filepath w :
  has_loader filepath = false →
  load_migration filepath w =
    (Ret None, with_trace (trace w ++ [Printed (MsgNoSpec filepath)]) w).
Proof.
  intros H. unfold load_migration, try_except, bind. by rewrite H.
Qed.

(** No file of that name: reading it raises, and the handler answers. *)
Lemma load_migration_no_file_eq filepath w :
  has_loader filepath = true →
  (∀ src, entry_at w filepath ≠ Some (File src)) →
  ∃ e, load_migration filepath w =
         (Ret None,
          with_trace (trace w ++ [ExecModule filepath;
                                  Printed (MsgLoadError filepath (Exc e))]) w).
Proof.
  intros Hl H.
  unfold load_migration, exec_module, try_except, bind, print, emit, ret,
    read_source, entry_at in *.
  rewrite Hl; simpl.
  destruct (migrations_dir w ≫= _) as [[|src]|]; simpl.
  - eexists. unfold with_trace; simpl. by rewrite <-(assoc_L (++)).
  - by destruct (H src).
  - eexists. unfold with_trace; simpl. by rewrite <-(assoc_L (++)).
Qed.

(** Text that does not compile: the loader raises before anything is
    cached or executed. *)
Lemma load_migration_malformed_eq filepath w cls :
  has_loader filepath = true →
  entry_at w filepath = Some (File (Malformed cls)) →
  load_migration filepath w =
    (Ret None,
     with_trace (trace w ++ [ExecModule filepath;
                             Printed (MsgLoadError filepath (Exc cls))]) w).
Proof.
  intros Hl He.
  unfold load_migration, exec_module, try_except, bind, print, emit, ret,
    raise, read_source, entry_at in *.
  rewrite Hl; simpl. rewrite He; simpl.
  unfold with_trace; simpl. by rewrite <-(assoc_L (++)).
Qed.

(** Code: after the caching, the body of the module runs, then the
    class is instantiated. *)
Lemma load_migration_code_eq filepath w body :
  has_loader filepath = true →
  entry_at w filepath = Some (File (Code body)) →
  ∃ w0, user_step w w0 ∧ db w0 = db w
    ∧ trace w0 = trace w ++ [ExecModule filepath]
    ∧ load_migration filepath w =
        match body (db w) with
        | (Raise e, d) =>
            if is_Exception e
            then (Ret None,
                  with_trace (trace w0 ++ [Printed (MsgLoadError filepath e)])
                             (with_db d w0))
            else (Raise e, with_db d w0)
        | (Ret module, d) =>
            match Migration module with
            | None =>
                (Ret None,
                 with_trace (trace w0 ++ [Printed (MsgNoClass filepath)])
                            (with_db d w0))
            | Some migration_class =>
                match migration_class d with
                | (Raise e, d') =>
                    if is_Exception e
                    then (Ret None,
                          with_trace
                            (trace w0 ++ [Printed (MsgLoadError filepath e)])
                            (with_db d' w0))
                    else (Raise e, with_db d' w0)
                | (Ret migration, d') => (Ret (Some migration), with_db d' w0)
                end
            end
        end.
Proof.
  intros Hl He.
  assert (∃ w0, user_step w w0 ∧ db w0 = db w
            ∧ trace w0 = trace w ++ [ExecModule filepath]
            ∧ exec_module filepath w
              = (let '(r, d) := body (db w) in (r, with_db d w0)))
    as (w0 & Hs & Hdb & Htr & Hexec).
  { unfold exec_module, bind at 1. unfold emit at 1. unfold bind at 1.
    unfold read_source, entry_at in *. simpl. rewrite He.
    unfold bind, call.
    destruct (is_source filepath).
    - destruct (cache_bytecode_step
                  (with_trace (trace w ++ [ExecModule filepath]) w))
        as (w0 & -> & (Hd & Hrest) & Hdb & Htr).
      exists w0. simpl in *. split; [by split|]. split; [done|]. split; [done|].
      by rewrite Hdb.
    - exists (with_trace (trace w ++ [ExecModule filepath]) w).
      split; [|done]. split; [apply cached_refl|done]. }
  exists w0. split; [done|]. split; [done|]. split; [done|].
  unfold load_migration, try_except, bind at 1. rewrite Hl. cbn [negb].
  unfold bind at 1. rewrite Hexec.
  destruct (body (db w)) as [[module|e] d].
  - destruct (Migration module) as [cls|].
    + unfold bind, call, ret. simpl.
      destruct (cls d) as [[m|e] d']; [done|]. by destruct (is_Exception e).
    + done.
  - by destruct (is_Exception e).
Qed.

(** Everything [load_migration] can do for a path, in one statement. *)
Lemma load_migration_run filepath w :
  ∃ r w' evs, load_migration filepath w = (r, w')
    ∧ user_step w w'
    ∧ trace w' = trace w ++ evs
    ∧ Forall (forward_event [filepath]) evs
    ∧ (∀ e, r = Raise e → is_Exception e = false).
Proof.
  assert (filepath ∈ [filepath]) as Hin by (by left).
  destruct (has_loader filepath) eqn:Hl.
  2:{ rewrite (load_migration_no_loader_eq _ _ Hl).
      eexists _, _, [_]. split; [done|]. split; [apply user_step_trace|].
      split; [done|]. split; [by repeat constructor|done]. }
  destruct (entry_at w filepath) as [[|[cls|body]]|] eqn:He.
  - destruct (load_migration_no_file_eq filepath w Hl) as [e ->].
    { intros src. by rewrite He. }
    eexists _, _, [_; _]. split; [done|]. split; [apply user_step_trace|].
    split; [done|]. split; [by repeat constructor|done].
  - rewrite (load_migration_malformed_eq _ _ _ Hl He).
    eexists _, _, [_; _]. split; [done|]. split; [apply user_step_trace|].
    split; [done|]. split; [by repeat constructor|done].
  - destruct (load_migration_code_eq _ _ _ Hl He)
      as (w0 & Hs & Hdb & Htr & ->).
    assert (∀ d, user_step w (with_db d w0)) as Hs1.
    { intros d. destruct Hs as (? & ? & ? & ? & ? & ? & ? & ?).
      by split_and!. }
    assert (∀ d m, user_step w
              (with_trace (trace w0 ++ [Printed m]) (with_db d w0))) as Hs2.
    { intros d m. destruct Hs as (? & ? & ? & ? & ? & ? & ? & ?).
      by split_and!. }
    destruct (body (db w)) as [[module|e] d].
    + destruct (Migration module) as [cls|].
      * destruct (cls d) as [[m|e] d'].
        -- eexists _, _, [_]. split; [done|]. split; [apply Hs1|].
           split; [done|]. split; [by repeat constructor|done].
        -- destruct (is_Exception e) eqn:Hexc.
           ++ eexists _, _, [_; _]. split; [done|]. split; [apply Hs2|].
              simpl. rewrite Htr, <-(assoc_L (++)).
              split; [done|]. split; [by repeat constructor|done].
           ++ eexists _, _, [_]. split; [done|]. split; [apply Hs1|].
              split; [done|]. split; [by repeat constructor|].
              by intros ? [= <-].
      * eexists _, _, [_; _]. split; [done|]. split; [apply Hs2|].
        simpl. rewrite Htr, <-(assoc_L (++)).
        split; [done|]. split; [by repeat constructor|done].
    + destruct (is_Exception e) eqn:Hexc.
      * eexists _, _, [_; _]. split; [done|]. split; [apply Hs2|].
        simpl. rewrite Htr, <-(assoc_L (++)).
        split; [done|]. split; [by repeat constructor|done].
      * eexists _, _, [_]. split; [done|]. split; [apply Hs1|].
        split; [done|]. split; [by repeat constructor|].
        by intros ? [= <-].
  - destruct (load_migration_no_file_eq filepath w Hl) as [e ->].
    { intros src. by rewrite He. }
    eexists _, _, [_; _]. split; [done|]. split; [apply user_step_trace|].
    split; [done|]. split; [by repeat constructor|done].
Qed.

Lemma load_migration_total filepath w :
  ∃ r w', load_migration filepath w = (r, w') ∧ user_step w w'
    ∧ ∀ e, r = Raise e → is_Exception e = false.
Proof.
  destruct (load_migration_run filepath w) as (r & w' & evs & ? & ? & _ & _ & ?).
  by exists r, w'.
Qed.

Lemma load_migration_step filepath w r w' :
  load_migration filepath w = (r, w') →
  user_step w w' ∧ ∀ e, r = Raise e → is_Exception e = false.
Proof.
  intros Hl. destruct (load_migration_total filepath w) as (r' & w2 & Hl' & ?).
  rewrite Hl in Hl'. by injection Hl' as <- <-.
Qed.





Lemma apply_migration_not_loaded filepath w w1 :
  load_migration filepath w = (Ret None, w1) →
  apply_migration filepath w = (Ret false, w1).
Proof. intros H. unfold apply_migration, try_except, bind. by rewrite H. Qed.

Lemma apply_migration_load_escapes filepath w e w1 :
  load_migration filepath w = (Raise e, w1) →
  apply_migration filepath w = (Raise e, w1).
Proof.
  intros H. destruct (load_migration_step _ _ _ _ H) as [_ Hexc].
  unfold apply_migration, try_except, bind. rewrite H.
  by rewrite (Hexc e eq_refl).
Qed.

Lemma downgrade_and_erase_not_loaded (r : Doc) w w1 :
  load_migration (name r) w = (Ret None, w1) →
  downgrade_and_erase r w = (Ret false, w1).
Proof. intros H. unfold downgrade_and_erase, bind. by rewrite H. Qed.

Lemma downgrade_and_erase_load_escapes (r : Doc) w e w1 :
  load_migration (name r) w = (Raise e, w1) →
  downgrade_and_erase r w = (Raise e, w1).
Proof. intros H. unfold downgrade_and_erase, bind. by rewrite H. Qed.

Lemma rollback_migration_selected migration_name w applied w0 (r : Doc) :
  get_applied_migrations w = (Ret applied, w0) → applied ≠ [] →
  select_record applied migration_name = Ret (Some r) →
  rollback_migration migration_name w =
    try_except (downgrade_and_erase r) rollback_failed w0.
Proof.
  intros Hg Hne Hs. unfold rollback_migration, try_except at 1, bind at 1.
  rewrite Hg. destruct applied as [|a l]; [done|].
  unfold bind at 1, lift. rewrite Hs.
  unfold try_except.
  destruct (downgrade_and_erase r w0) as [[b|e] w']; [done|].
  by destruct (is_Exception e).
Qed.


End Loading.


(* ===================================================================== *)
(** * Strings and paths *)
(* ===================================================================== *)

Section Strings.

Implicit Types (s a b : string) (c : ascii).

Lemma append_cons c a b : String c a +:+ b = String c (a +:+ b).
Proof. reflexivity. Qed.

Lemma append_nil_l b : "" +:+ b = b.
Proof. reflexivity. Qed.

Lemma append_assoc a b s : (a +:+ b) +:+ s = a +:+ (b +:+ s).
Proof. induction a as [|c a IH]; [done|]. by rewrite !append_cons, IH. Qed.

Lemma length_append a b :
  String.length (a +:+ b) = (String.length a + String.length b)%nat.
Proof. induction a as [|c a IH]; [done|]. rewrite append_cons. simpl. by rewrite IH. Qed.

Lemma str_take_drop i s : PyStr.take i s +:+ PyStr.drop i s = s.
Proof.
  revert s. induction i as [|i IH]; intros [|c s]; simpl; try done.
  by rewrite append_cons, IH.
Qed.

Lemma str_drop_append a b : PyStr.drop (String.length a) (a +:+ b) = b.
Proof. induction a as [|c a IH]; [done|]. by rewrite append_cons. Qed.

Lemma str_take_append a b : PyStr.take (String.length a) (a +:+ b) = a.
Proof.
  induction a as [|c a IH]; simpl; [by destruct b|].
  by rewrite IH.
Qed.

Lemma rfind_dot_py a : PyStr.rfind "." (a +:+ ".py") = PyStr.len a.
Proof.
  unfold PyStr.len. induction a as [|c a IH]; [done|].
  rewrite append_cons. cbn [PyStr.rfind String.length]. rewrite IH.
  destruct (Z.eqb_spec (Z.of_nat (String.length a)) (-1)); lia.
Qed.

Lemma suffix_stem_py a :
  a ≠ "" → suffix (a +:+ ".py") = ".py" ∧ stem (a +:+ ".py") = a.
Proof.
  intros Ha. unfold suffix, stem. rewrite rfind_dot_py.
  unfold PyStr.len. rewrite length_append. simpl.
  assert (0 < Z.of_nat (String.length a)) by (destruct a; [done|simpl; lia]).
  destruct (Z.ltb_spec 0 (Z.of_nat (String.length a))); [|lia].
  destruct (Z.ltb_spec (Z.of_nat (String.length a))
              (Z.of_nat (String.length a + 3) - 1)); [|lia].
  simpl. rewrite Nat2Z.id. by rewrite str_drop_append, str_take_append.
Qed.

Lemma stem_suffix s : stem s +:+ suffix s = s.
Proof.
  unfold stem, suffix. destruct (_ && _); [apply str_take_drop|].
  induction s as [|c s IH]; [done|]. by rewrite append_cons, IH.
Qed.

Lemma after_first_append c a b :
  PyStr.contains c a = false → after_first c (a +:+ String c b) = b.
Proof.
  induction a as [|x a IH]; intros Hc.
  - rewrite append_nil_l. simpl. by rewrite Ascii.eqb_refl.
  - simpl in Hc. apply orb_false_iff in Hc as [Hx Ha].
    rewrite append_cons. cbn [after_first]. rewrite Hx. auto.
Qed.

Lemma after_first_absent c s : PyStr.contains c s = false → after_first c s = "".
Proof.
  induction s as [|x s IH]; simpl; [done|].
  intros [-> Hs]%orb_false_iff. auto.
Qed.

Lemma contains_append c a b :
  PyStr.contains c (a +:+ b) = PyStr.contains c a || PyStr.contains c b.
Proof.
  induction a as [|x a IH]; [done|].
  rewrite append_cons. simpl. by rewrite IH, orb_assoc.
Qed.

Lemma digit_cases (P : Z → Prop) :
  P 0 → P 1 → P 2 → P 3 → P 4 → P 5 → P 6 → P 7 → P 8 → P 9 →
  ∀ k, 0 <= k < 10 → P k.
Proof.
  intros ?????????? k Hk.
  assert (k = 0 ∨ k = 1 ∨ k = 2 ∨ k = 3 ∨ k = 4 ∨ k = 5 ∨ k = 6 ∨ k = 7
          ∨ k = 8 ∨ k = 9) as Hc by lia.
  repeat (destruct Hc as [->|Hc]; [done|]). by subst.
Qed.

Lemma digit_not_underscore n : Ascii.eqb (digit (n mod 10)) "_" = false.
Proof.
  apply (digit_cases (fun k => Ascii.eqb (digit k) "_" = false)); try done.
  apply Z.mod_pos_bound; lia.
Qed.

Lemma zfill_no_underscore k n : PyStr.contains "_" (zfill k n) = false.
Proof.
  revert n. induction k as [|k IH]; intros n; [done|]. simpl.
  rewrite contains_append, IH. simpl. by rewrite digit_not_underscore.
Qed.

Lemma strftime_no_underscore t : PyStr.contains "_" (strftime t) = false.
Proof.
  unfold strftime. by rewrite !contains_append, !zfill_no_underscore.
Qed.

Lemma split1_contains c s :
  PyStr.contains c s = true →
  ∃ before, PyStr.split1 c s = [before; after_first c s].
Proof.
  induction s as [|a s IH]; simpl; [done|].
  destruct (Ascii.eqb a c); simpl; [eauto|].
  intros [before ->]%IH. eauto.
Qed.

Lemma description_of_spec s : description_of s = Ret (after_first "_" s).
Proof.
  unfold description_of. destruct (PyStr.contains "_" s) eqn:Hc.
  - by destruct (split1_contains _ _ Hc) as [before ->].
  - by rewrite after_first_absent.
Qed.

End Strings.

(* ===================================================================== *)
(** * Applying a unit *)
(* ===================================================================== *)

Section Applying.

Context {D : Type}.
Implicit Types (w : World D) (filepath : string).

(** A reading that has whole milliseconds only is stored as it is, and
    no other is. *)
Lemma to_millis_fixed (t : datetime) :
  to_millis t = t ↔ microsecond t mod 1000 = 0.
Proof.
  destruct t as [y mo d h mi s us]. unfold to_millis. simpl.
  pose proof (Z.div_mod us 1000 ltac:(lia)) as Hdm.
  split.
  - intros [= Heq]. lia.
  - intros Hmod. f_equal. lia.
Qed.

Lemma apply_migration_upgrade_raises filepath w m w1 e d :
  load_migration filepath w = (Ret (Some m), w1) →
  upgrade m (db w1) = (Raise e, d) →
  is_Exception e = true →
  apply_migration filepath w =
    (Ret false,
     with_trace (trace w1 ++ [CallUpgrade filepath;
                              Printed (MsgApplyError filepath e)])
                (with_db d w1)).
Proof.
  intros Hl Hup He. unfold apply_migration, try_except, bind at 1. rewrite Hl.
  unfold bind, emit, call, print, ret; simpl. rewrite Hup. simpl. rewrite He.
  unfold with_trace, with_db; simpl. by rewrite <-(assoc_L (++)).
Qed.

(** An exception that is not an [Exception] passes the handler: nothing
    is printed and nothing is returned. *)
Lemma apply_migration_upgrade_escapes filepath w m w1 e d :
  load_migration filepath w = (Ret (Some m), w1) →
  upgrade m (db w1) = (Raise e, d) →
  is_Exception e = false →
  apply_migration filepath w =
    (Raise e, with_trace (trace w1 ++ [CallUpgrade filepath]) (with_db d w1)).
Proof.
  intros Hl Hup He. unfold apply_migration, try_except, bind at 1. rewrite Hl.
  unfold bind, emit, call, print, ret; simpl. rewrite Hup. simpl.
  by rewrite He.
Qed.

(** After a successful [upgrade] the record is written, unless the
    server cannot be reached. *)
Lemma apply_migration_upgrade_returns filepath w m w1 d :
  load_migration filepath w = (Ret (Some m), w1) →
  upgrade m (db w1) = (Ret tt, d) →
  ∃ w', apply_migration filepath w = (Ret (negb (outage w1 (S (ticks w1)))), w')
    ∧ migrations_dir w' = migrations_dir w1
    ∧ wall_clock w' = wall_clock w1 ∧ outage w' = outage w1
    ∧ db w' = d
    ∧ (∃ evs, trace w' = trace w1 ++ CallUpgrade filepath :: evs
              ∧ Forall (forward_event [filepath]) evs)
    ∧ if outage w1 (S (ticks w1))
      then _migrations w' = _migrations w1 ∧ next_oid w' = next_oid w1
      else _migrations w' = _migrations w1 ++ [entry_for filepath w1]
           ∧ next_oid w' = N.succ (next_oid w1).
Proof.
  intros Hl Hup. unfold apply_migration, try_except, bind at 1. rewrite Hl.
  unfold bind, emit, call, print, ret; simpl. rewrite Hup. simpl.
  rewrite description_of_spec. simpl.
  unfold insert_one, db_call, bind, emit, tick; simpl.
  assert (filepath ∈ [filepath]) as Hin by (by left).
  destruct (outage w1 (S (ticks w1))); simpl; eexists;
    (split; [done|]); simpl; split_and!; try done.
  - eexists [_; _]. rewrite <-!(assoc_L (++)). split; [done|].
    by repeat constructor.
  - eexists [_]. rewrite <-!(assoc_L (++)). split; [done|].
    by repeat constructor.
Qed.

Lemma apply_migration_spec filepath w :
  ∃ r w', apply_migration filepath w = (r, w')
    ∧ cached (migrations_dir w) (migrations_dir w')
    ∧ wall_clock w' = wall_clock w ∧ outage w' = outage w
    ∧ (((r = Ret false ∨ escapes r)
        ∧ _migrations w' = _migrations w ∧ next_oid w' = next_oid w)
       ∨ (r = Ret true
          ∧ (∃ m w1 d, load_migration filepath w = (Ret (Some m), w1)
                       ∧ upgrade m (db w1) = (Ret tt, d) ∧ db w' = d)
          ∧ _migrations w' = _migrations w ++ [entry_for filepath w]
          ∧ next_oid w' = N.succ (next_oid w))).
Proof.
  destruct (load_migration_total filepath w)
    as (o & w1 & Hl & (Hd & Hm & Ho & Ht & Hc & Hout & _) & Hexc).
  destruct o as [[m|]|e].
  - destruct (upgrade m (db w1)) as [[[]|e] d] eqn:Hup.
    + destruct (apply_migration_upgrade_returns _ _ _ _ _ Hl Hup)
        as (w' & -> & E1 & E2 & E3 & E4 & _ & Hcase).
      eexists _, w'. split; [done|]. rewrite E1, E2, E3.
      do 3 (split; [done|]).
      destruct (outage w1 (S (ticks w1))); simpl; destruct Hcase as [E5 E6].
      * left. split; [by left|]. rewrite E5, E6. by split.
      * right. split; [done|]. split; [by exists m, w1, d|].
        rewrite E5, E6, Hm, Ho.
        split; [|done]. unfold entry_for. by rewrite Ho, Ht, Hc.
    + destruct (is_Exception e) eqn:He.
      * rewrite (apply_migration_upgrade_raises _ _ _ _ _ _ Hl Hup He).
        eexists _, _. split; [done|]. simpl.
        do 3 (split; [done|]). left. split; [by left|done].
      * rewrite (apply_migration_upgrade_escapes _ _ _ _ _ _ Hl Hup He).
        eexists _, _. split; [done|]. simpl.
        do 3 (split; [done|]). left. split; [right; by exists e|done].
  - rewrite (apply_migration_not_loaded _ _ _ Hl).
    eexists _, w1. split; [done|]. do 3 (split; [done|]).
    left. split; [by left|done].
  - rewrite (apply_migration_load_escapes _ _ _ _ Hl).
    eexists _, w1. split; [done|]. do 3 (split; [done|]).
    left. split; [|done]. right. exists e. split; [done|]. by apply Hexc.
Qed.


(** C8. The ledger entry written by a successful [apply_migration] has:
    as [name] the file name; as [version] the stem of the file name, that
    is the name without its extension; as [description] the part of the
    stem after its first underscore, empty when the stem has none, which
    for a name [<timestamp>_<text>.py] is the text; and as [applied_at]
    the reading of the clock at the application cut to whole
    milliseconds, which is that reading itself exactly when its
    microseconds are a multiple of a thousand. *)
Theorem applied_entry_fields filepath w w' :
  apply_migration filepath w = (Ret true, w') →
  ∃ doc, _migrations w' = _migrations w ++ [doc]
    ∧ name doc = filepath
    ∧ version doc = stem filepath
    ∧ filepath = version doc +:+ suffix filepath
    ∧ description doc = after_first "_" (version doc)
    ∧ (∀ pre post, version doc = pre +:+ "_" +:+ post →
                   PyStr.contains "_" pre = false → description doc = post)
    ∧ (PyStr.contains "_" (version doc) = false → description doc = "")
    ∧ (∀ t text, filepath = strftime t +:+ "_" +:+ text +:+ ".py" →
                 description doc = text)
    ∧ applied_at doc = to_millis (wall_clock w (ticks w))
    ∧ (applied_at doc = wall_clock w (ticks w)
       ↔ microsecond (wall_clock w (ticks w)) mod 1000 = 0).
Proof.
  intros Happ.
  destruct (apply_migration_spec filepath w)
    as (b & w2 & Happ' & _ & _ & _ & Hcase).
  rewrite Happ in Happ'. injection Happ' as <- <-.
  destruct Hcase as [([[=]|(e & [=] & _)] & _)|(_ & _ & Hm & _)].
  exists (entry_for filepath w). simpl.
  split; [done|]. split; [done|]. split; [done|].
  split; [by rewrite stem_suffix|]. split; [done|].
  split; [|split; [|split; [|split; [done|apply to_millis_fixed]]]].
  - intros pre post -> Hpre. by apply (after_first_append "_").
  - apply after_first_absent.
  - intros t text ->.
    assert (Hne : strftime t +:+ "_" +:+ text ≠ "").
    { intros Heq. apply (f_equal (PyStr.contains "_")) in Heq.
      rewrite contains_append in Heq. simpl in Heq.
      by rewrite orb_true_r in Heq. }
    rewrite <-!append_assoc.
    destruct (suffix_stem_py (((strftime t +:+ "_") +:+ text)))
      as [_ ->].
    { by rewrite append_assoc. }
    rewrite append_assoc. apply (after_first_append "_").
    apply strftime_no_underscore.
Qed.

End Applying.


(** C8, as stated, fails for [applied_at]. The clock reads 123456
    microseconds at the application; the entry of the ledger has 123000,
    as the collection keeps whole milliseconds. *)
Lemma applied_at_loses_microseconds :
  (apply_migration Sample.init
     (MoreSamples.fine_world (Some Sample.two_units) [])).1 = Ret true
  ∧ wall_clock (MoreSamples.fine_world (Some Sample.two_units) []) 0
    = DateTime 2025 11 5 15 15 29 123456
  ∧ applied_at <$> _migrations
      (apply_migration Sample.init
         (MoreSamples.fine_world (Some Sample.two_units) [])).2
    = [DateTime 2025 11 5 15 15 29 123000].
Proof. vm_compute. repeat split. Qed.

(* ===================================================================== *)
(** * The ledger *)
(* ===================================================================== *)

Section Ledger.

Context {D : Type}.
Implicit Types (w : World D) (l : list Doc) (r : Doc).

Lemma get_applied_migrations_up w :
  outage w (ticks w) = false →
  get_applied_migrations w =
    (Ret (merge_sort applied_le (_migrations w)), with_ticks (S (ticks w)) w).
Proof.
  intros H. unfold get_applied_migrations, find_sorted, db_call, bind, tick.
  simpl. by rewrite H.
Qed.

Lemma get_applied_migrations_down w :
  outage w (ticks w) = true →
  get_applied_migrations w =
    (Raise "ServerSelectionTimeoutError", with_ticks (S (ticks w)) w).
Proof.
  intros H. unfold get_applied_migrations, find_sorted, db_call, bind, tick.
  simpl. by rewrite H.
Qed.

Lemma get_applied_migrations_inv w applied w0 :
  get_applied_migrations w = (Ret applied, w0) →
  applied = merge_sort applied_le (_migrations w)
  ∧ w0 = with_ticks (S (ticks w)) w.
Proof.
  destruct (outage w (ticks w)) eqn:H.
  - rewrite (get_applied_migrations_down _ H). by intros [=].
  - rewrite (get_applied_migrations_up _ H). by intros [= <- <-].
Qed.

Lemma lex_ltb_irrefl (a : list Z) : lex_ltb a a = false.
Proof.
  induction a as [|x a IH]; [done|]. simpl.
  rewrite IH, Z.ltb_irrefl. by rewrite andb_false_r.
Qed.

Lemma lex_ltb_trans (a b c : list Z) :
  lex_ltb a b = true → lex_ltb b c = true → lex_ltb a c = true.
Proof.
  revert b c. induction a as [|x a IH]; intros [|y b] [|z c]; simpl; try done.
  rewrite !orb_true_iff, !andb_true_iff, !Z.ltb_lt, !Z.eqb_eq.
  intros [?|[-> ?]] [?|[-> ?]]; eauto with lia.
Qed.

Lemma lex_ltb_total (a b : list Z) :
  length a = length b → lex_ltb a b = false → lex_ltb b a = false → a = b.
Proof.
  revert b. induction a as [|x a IH]; intros [|y b]; simpl; try done.
  rewrite !orb_false_iff, !andb_false_iff, !Z.ltb_ge, !Z.eqb_neq.
  intros [= Hlen] [? [?|?]] [? [?|?]]; try lia.
  assert (x = y) as -> by lia. f_equal. auto.
Qed.

Lemma dt_le_trans (a b c : datetime) : dt_le a b → dt_le b c → dt_le a c.
Proof.
  unfold dt_le, dt_ltb. intros Hab Hbc.
  destruct (lex_ltb (dt_fields c) (dt_fields a)) eqn:Hca; [|done].
  destruct (lex_ltb (dt_fields b) (dt_fields c)) eqn:Hbc'.
  - by rewrite (lex_ltb_trans _ _ _ Hbc' Hca) in Hab.
  - assert (dt_fields b = dt_fields c) as Heq by (by apply lex_ltb_total).
    rewrite <-Heq in Hca. by rewrite Hca in Hab.
Qed.

Lemma dt_le_total (a b : datetime) : dt_le a b ∨ dt_le b a.
Proof.
  unfold dt_le, dt_ltb.
  destruct (lex_ltb (dt_fields b) (dt_fields a)) eqn:Hba; [|by left].
  right. destruct (lex_ltb (dt_fields a) (dt_fields b)) eqn:Hab; [|done].
  by rewrite <-(lex_ltb_irrefl (dt_fields a)), (lex_ltb_trans _ _ _ Hab Hba).
Qed.

#[local] Instance applied_le_trans : Transitive applied_le.
Proof. intros a b c. apply dt_le_trans. Qed.

#[local] Instance applied_le_total : Total applied_le.
Proof. intros a b. apply dt_le_total. Qed.

Lemma sorted_ledger_perm l : merge_sort applied_le l ≡ₚ l.
Proof. apply merge_sort_Permutation. Qed.

Lemma sorted_ledger_sorted l : StronglySorted applied_le (merge_sort applied_le l).
Proof. apply (StronglySorted_merge_sort _). Qed.

Lemma sorted_ledger_nil l : merge_sort applied_le l = [] ↔ l = [].
Proof.
  split; [|by intros ->].
  intros H. apply Permutation_nil_r. by rewrite <-H, sorted_ledger_perm.
Qed.

(** The last record of the sorted ledger is a most recent one. *)
Lemma last_sorted_latest l r :
  last (merge_sort applied_le l) = Some r →
  r ∈ l ∧ ∀ d, d ∈ l → applied_le d r.
Proof.
  intros [l' Hl']%last_Some.
  pose proof (sorted_ledger_perm l) as Hp.
  pose proof (sorted_ledger_sorted l) as Hs.
  rewrite Hl' in Hp, Hs. split.
  - rewrite <-Hp. set_solver.
  - intros d Hd. rewrite <-Hp in Hd.
    apply elem_of_app in Hd as [Hd|Hd%list_elem_of_singleton].
    + by eapply StronglySorted_app_1_elem_of; [done..|set_solver].
    + subst d. by destruct (dt_le_total (applied_at r) (applied_at r)).
Qed.

Lemma find_by_name l n :
  match List.find (fun m => String.eqb (name m) n) l with
  | Some r => r ∈ l ∧ name r = n
  | None => n ∉ name <$> l
  end.
Proof.
  induction l as [|a l IH]; simpl; [set_solver|].
  destruct (String.eqb_spec (name a) n) as [Heq|Hne]; [set_solver|].
  destruct (List.find _ l); set_solver.
Qed.

Lemma NoDup_key_eq {K} (f : Doc → K) l (x y : Doc) :
  NoDup (f <$> l) → x ∈ l → y ∈ l → f x = f y → x = y.
Proof.
  induction l as [|a l IH]; simpl; [by intros _ ?%elem_of_nil|].
  rewrite NoDup_cons, !elem_of_cons. intros [Ha Hnd] [->|Hx] [->|Hy] Hf.
  - done.
  - destruct Ha. rewrite Hf. by apply list_elem_of_fmap_2.
  - destruct Ha. rewrite <-Hf. by apply list_elem_of_fmap_2.
  - by apply IH.
Qed.

Lemma delete_first_elem_of l r :
  NoDup (_id <$> l) → r ∈ l →
  ∀ d, d ∈ delete_first (_id r) l ↔ d ∈ l ∧ d ≠ r.
Proof.
  induction l as [|a l IH]; simpl; [set_solver|].
  rewrite NoDup_cons. intros [Ha Hnd] Hr d.
  destruct (N.eqb_spec (_id a) (_id r)) as [Heq|Hne].
  - assert (r = a) as ->.
    { apply elem_of_cons in Hr as [->|Hr]; [done|].
      destruct Ha. rewrite Heq. by apply list_elem_of_fmap_2. }
    split.
    + intros Hd. split; [set_solver|]. intros ->.
      destruct Ha. by apply list_elem_of_fmap_2.
    + set_solver.
  - assert (r ∈ l) as Hr' by set_solver.
    rewrite elem_of_cons, (IH Hnd Hr' d), elem_of_cons.
    split; [|naive_solver]. intros [->|[? ?]]; [|by auto].
    split; [by left|]. by intros ->.
Qed.


End Ledger.

(* ===================================================================== *)
(** * Rolling back a unit *)
(* ===================================================================== *)

Section RollingBack.

Context {D : Type}.
Implicit Types (w : World D) (r : Doc) (migration_name : option string).

Lemma downgrade_and_erase_raises r w m w1 e d :
  load_migration (name r) w = (Ret (Some m), w1) →
  downgrade m (db w1) = (Raise e, d) →
  downgrade_and_erase r w =
    (Raise e, with_trace (trace w1 ++ [CallDowngrade (name r)]) (with_db d w1)).
Proof.
  intros Hl Hdn. unfold downgrade_and_erase, bind at 1. rewrite Hl.
  unfold bind, emit, call; simpl. by rewrite Hdn.
Qed.

Lemma downgrade_and_erase_returns r w m w1 d :
  load_migration (name r) w = (Ret (Some m), w1) →
  downgrade m (db w1) = (Ret tt, d) →
  ∃ w', downgrade_and_erase r w =
          (if outage w1 (ticks w1)
           then Raise "ServerSelectionTimeoutError" else Ret true, w')
    ∧ migrations_dir w' = migrations_dir w1 ∧ db w' = d
    ∧ next_oid w' = next_oid w1
    ∧ _migrations w' = if outage w1 (ticks w1) then _migrations w1
                       else delete_first (_id r) (_migrations w1).
Proof.
  intros Hl Hdn. unfold downgrade_and_erase, bind at 1. rewrite Hl.
  unfold bind, emit, call, delete_one, db_call, bind, emit, tick; simpl.
  rewrite Hdn. simpl.
  destruct (outage w1 (ticks w1)); simpl; eexists; by repeat split.
Qed.

(** What [downgrade_and_erase] under the handler of [rollback_migration]
    can do. *)
Lemma downgrade_and_erase_spec r w :
  ∃ res w', try_except (downgrade_and_erase r) rollback_failed w = (res, w')
    ∧ cached (migrations_dir w) (migrations_dir w')
    ∧ (((res = Ret false ∨ escapes res) ∧ _migrations w' = _migrations w)
       ∨ (res = Ret true
          ∧ (∃ m w1 d, load_migration (name r) w = (Ret (Some m), w1)
                       ∧ downgrade m (db w1) = (Ret tt, d) ∧ db w' = d)
          ∧ _migrations w' = delete_first (_id r) (_migrations w))).
Proof.
  destruct (load_migration_total (name r) w)
    as (o & w1 & Hl & (Hd & Hm & Ho & Ht & Hc & Hout & _) & Hexc).
  unfold try_except. destruct o as [[m|]|e].
  - destruct (downgrade m (db w1)) as [[[]|e] d] eqn:Hdn.
    + destruct (downgrade_and_erase_returns _ _ _ _ _ Hl Hdn)
        as (w' & -> & E1 & E2 & E3 & E4).
      destruct (outage w1 (ticks w1)); simpl.
      * eexists _, _. split; [done|]. simpl. rewrite E1, E4.
        split; [done|]. left. split; [by left|done].
      * eexists _, w'. split; [done|]. rewrite E1, E4.
        split; [done|]. right. split; [done|].
        split; [by exists m, w1, d|]. by rewrite Hm.
    + rewrite (downgrade_and_erase_raises _ _ _ _ _ _ Hl Hdn).
      destruct (is_Exception e) eqn:He.
      * eexists _, _. split; [done|]. simpl. split; [done|].
        left. split; [by left|done].
      * eexists _, _. split; [done|]. simpl. split; [done|].
        left. split; [right; by exists e|done].
  - rewrite (downgrade_and_erase_not_loaded _ _ _ Hl).
    eexists _, w1. split; [done|]. split; [done|]. left. split; [by left|done].
  - rewrite (downgrade_and_erase_load_escapes _ _ _ _ Hl).
    rewrite (Hexc e eq_refl).
    eexists _, w1. split; [done|]. split; [done|]. left.
    split; [|done]. right. exists e. split; [done|]. by apply Hexc.
Qed.

Lemma select_record_latest applied :
  applied ≠ [] → ∀ migration_name, truthy migration_name = false →
  ∃ r, select_record applied migration_name = Ret (Some r)
       ∧ last applied = Some r.
Proof.
  intros Hne mn Ht. unfold select_record. rewrite Ht. simpl.
  destruct (last applied) as [r|] eqn:Hlast; [by eauto|].
  by apply last_None in Hlast.
Qed.

Lemma select_record_named applied n :
  n ≠ "" →
  select_record applied (Some n) =
    Ret (List.find (fun m => String.eqb (name m) n) applied).
Proof.
  intros Hn. unfold select_record. simpl.
  by destruct (String.eqb_spec n "").
Qed.



Lemma select_record_elem applied migration_name r :
  select_record applied migration_name = Ret (Some r) → r ∈ applied.
Proof.
  unfold select_record. destruct (negb (truthy migration_name)).
  - destruct (last applied) as [r'|] eqn:Hlast; [|done].
    intros [= <-]. by eapply last_Some_elem_of.
  - intros [= Hf].
    pose proof (find_by_name applied (default "" migration_name)) as H.
    rewrite Hf in H. apply H.
Qed.

Lemma rollback_migration_spec migration_name w :
  ∃ res w', rollback_migration migration_name w = (res, w')
    ∧ cached (migrations_dir w) (migrations_dir w')
    ∧ (((res = Ret false ∨ escapes res) ∧ _migrations w' = _migrations w)
       ∨ (res = Ret true
          ∧ ∃ applied w0 r m w1 d,
              get_applied_migrations w = (Ret applied, w0)
              ∧ applied ≠ []
              ∧ select_record applied migration_name = Ret (Some r)
              ∧ r ∈ _migrations w
              ∧ load_migration (name r) w0 = (Ret (Some m), w1)
              ∧ downgrade m (db w1) = (Ret tt, d)
              ∧ _migrations w' = delete_first (_id r) (_migrations w))).
Proof.
  destruct (outage w (ticks w)) eqn:Hup.
  { unfold rollback_migration, try_except, bind at 1.
    rewrite (get_applied_migrations_down _ Hup). simpl.
    eexists _, _. split; [done|]. simpl. split; [apply cached_refl|].
    left. split; [by left|done]. }
  pose proof (get_applied_migrations_up _ Hup) as Hg.
  destruct (merge_sort applied_le (_migrations w)) as [|a l] eqn:Hs.
  { unfold rollback_migration, try_except, bind at 1. rewrite Hg. simpl.
    eexists _, _. split; [done|]. simpl. split; [apply cached_refl|].
    left. split; [by left|done]. }
  destruct (select_record (a :: l) migration_name) as [[r|]|e] eqn:Hsel.
  - rewrite (rollback_migration_selected _ _ _ _ _ Hg (ltac:(done)) Hsel).
    destruct (downgrade_and_erase_spec r (with_ticks (S (ticks w)) w))
      as (b & w' & -> & Hd & Hcase).
    exists b, w'. split; [done|]. split; [done|].
    destruct Hcase as [[Hb Hm]|(-> & (m & w1 & d & Hl & Hdn & _) & Hm)];
      [by left|right].
    split; [done|]. exists (a :: l), (with_ticks (S (ticks w)) w), r, m, w1, d.
    split; [done|]. split; [done|]. split; [done|]. split; [|done].
    rewrite <-(sorted_ledger_perm (_migrations w)), Hs.
    by eapply select_record_elem.
  - unfold rollback_migration, try_except, bind at 1. rewrite Hg.
    unfold bind, lift. rewrite Hsel. simpl.
    eexists _, _. split; [done|]. simpl. split; [apply cached_refl|].
    left. split; [by left|done].
  - assert (e = Exc "IndexError") as ->.
    { revert Hsel. unfold select_record.
      destruct (negb (truthy migration_name)); [|done].
      by destruct (last (a :: l)); intros [=]. }
    unfold rollback_migration, try_except, bind at 1. rewrite Hg.
    unfold bind, lift. rewrite Hsel. simpl.
    eexists _, _. split; [done|]. simpl. split; [apply cached_refl|].
    left. split; [by left|done].
Qed.


End RollingBack.

Section Erasing.

Context {D : Type}.
Implicit Types (w : World D) (r : Doc) (migration_name : option string).


End Erasing.


(* ===================================================================== *)
(** * Status *)
(* ===================================================================== *)

Section StatusReport.

Context {D : Type}.
Local Open Scope nat_scope.
Implicit Types (w : World D).

Lemma sorted_applied_names w :
  list_to_set (name <$> merge_sort applied_le (_migrations w)) = applied_names w.
Proof. unfold applied_names. by rewrite sorted_ledger_perm. Qed.

Lemma elem_of_applied_names w n :
  n ∈ applied_names w ↔ n ∈ name <$> _migrations w.
Proof. unfold applied_names. apply elem_of_list_to_set. Qed.

Lemma get_status_up w :
  outage w (ticks w) = false →
  get_status w =
    (Ret (mkStatus
            (length (units w)) (length (merge_sort applied_le (_migrations w)))
            (length (filter (fun m => m ∉ applied_names w) (units w)))
            (merge_sort applied_le (_migrations w))
            (filter (fun m => m ∉ applied_names w) (units w))),
     with_ticks (S (ticks w)) w).
Proof.
  intros Hup. unfold get_status, bind at 1. unfold get_migration_files.
  unfold bind at 1.
  replace (get_applied_migrations w)
    with (Ret (merge_sort applied_le (_migrations w)),
          with_ticks (S (ticks w)) w)
    by (symmetry; by apply get_applied_migrations_up).
  unfold ret. by rewrite sorted_applied_names.
Qed.

(** The units that have an entry are at most as many as the entries,
    and exactly as many only if every entry names a unit. *)
Lemma recorded_units_count (fs : list string) (names : list string) :
  NoDup fs →
  length (filter (fun m => m ∈ names) fs) ≤ length names
  ∧ (length (filter (fun m => m ∈ names) fs) = length names →
     ∀ n, n ∈ names → n ∈ fs).
Proof.
  intros Hnd.
  assert (filter (fun m => m ∈ names) fs ⊆+ names) as Hsub.
  { apply NoDup_submseteq; [by apply NoDup_filter|].
    by intros x [? _]%list_elem_of_filter. }
  split; [by apply submseteq_length|].
  intros Hlen n Hn.
  apply submseteq_length_Permutation in Hsub; [|lia].
  rewrite <-Hsub in Hn. by apply list_elem_of_filter in Hn as [_ ?].
Qed.

Lemma filter_split_length (P : string → Prop) `{∀ x, Decision (P x)}
    (fs : list string) :
  length (filter P fs) + length (filter (fun x => ¬ P x) fs) = length fs.
Proof. by rewrite <-length_app, filter_app_complement. Qed.

(** C9. With the ledger readable, [get_status] is a pure read that
    returns: as [total] the number of discovered files, as [applied] the
    number of ledger entries, as [pending] the number of discovered
    files whose name has no ledger entry, with the names of those files
    as [pending_migrations]. So [total] is at most [applied + pending];
    the two are equal only when every ledger entry names a discovered
    file, hence a file of the directory; an entry whose name the
    directory does not hold makes [applied + pending] exceed [total];
    and no entry's name is among the pending names. *)
Theorem get_status_counts w :
  outage w (ticks w) = false →
  ∃ st w', get_status w = (Ret st, w')
    ∧ (db w' = db w ∧ _migrations w' = _migrations w
       ∧ migrations_dir w' = migrations_dir w ∧ trace w' = trace w)
    ∧ total st = length (units w)
    ∧ applied st = length (_migrations w)
    ∧ applied_migrations st ≡ₚ _migrations w
    ∧ pending_migrations st =
        filter (fun m => m ∉ name <$> _migrations w) (units w)
    ∧ pending st = length (pending_migrations st)
    ∧ total st ≤ applied st + pending st
    ∧ (applied st + pending st = total st →
       ∀ e, e ∈ _migrations w →
            name e ∈ units w
            ∧ ∃ src, entry_at w (name e) = Some (File src))
    ∧ (∀ e, e ∈ _migrations w → entry_at w (name e) = None →
            total st < applied st + pending st)
    ∧ (∀ e, e ∈ _migrations w → name e ∉ pending_migrations st).
Proof.
  intros Hup. rewrite (get_status_up _ Hup). eexists _, _.
  split; [done|]. simpl. split; [done|]. split; [done|].
  rewrite (Permutation_length (sorted_ledger_perm _)).
  split; [done|]. split; [apply sorted_ledger_perm|].
  assert (filter (fun m => m ∉ applied_names w) (units w)
          = filter (fun m => m ∉ name <$> _migrations w) (units w)) as ->.
  { apply list_filter_iff. intros n. by rewrite elem_of_applied_names. }
  split; [done|]. split; [done|].
  pose proof (recorded_units_count (units w) (name <$> _migrations w)
                (migration_files_NoDup _)) as [Hle Heq].
  pose proof (filter_split_length (fun m => m ∈ name <$> _migrations w)
                (units w)) as Hsplit.
  rewrite length_fmap in Hle, Heq.
  assert (∀ e, e ∈ _migrations w →
               length (filter (fun m => m ∈ name <$> _migrations w) (units w))
               = length (_migrations w) → name e ∈ units w) as Hin.
  { intros e He Hlen. apply Heq; [done|]. by apply list_elem_of_fmap_2. }
  split; [lia|]. split; [|split].
  - intros Hsum e He.
    assert (name e ∈ units w) as Hu by (apply Hin; [done|lia]).
    split; [done|]. unfold units, entry_at in *.
    destruct (migrations_dir w) as [d|]; simpl in *;
      [|by apply elem_of_nil in Hu].
    by apply elem_of_migration_files in Hu as [? _].
  - intros e He Habs.
    destruct (decide (length (filter (fun m => m ∈ name <$> _migrations w)
                                     (units w))
                      = length (_migrations w))) as [Hlen|Hlen]; [|lia].
    specialize (Hin e He Hlen). unfold units, entry_at in *.
    destruct (migrations_dir w) as [d|]; simpl in *;
      [|by apply elem_of_nil in Hin].
    apply elem_of_migration_files in Hin as [[src Hsrc] _]. congruence.
  - intros e He [Hnot _]%list_elem_of_filter.
    destruct Hnot. by apply list_elem_of_fmap_2.
Qed.

End StatusReport.

(* ===================================================================== *)
(** * Batch apply: the [migrate] command *)
(* ===================================================================== *)

Section Batch.

Context {D : Type}.
Implicit Types (w : World D) (pending : list string).
Local Open Scope nat_scope.

Lemma get_pending_migrations_up w :
  outage w (ticks w) = false →
  get_pending_migrations w = (Ret (pending_of w), with_ticks (S (ticks w)) w).
Proof.
  intros Hup. unfold get_pending_migrations, bind at 1.
  rewrite (get_applied_migrations_up _ Hup).
  unfold bind, get_migration_files, ret. by rewrite sorted_applied_names.
Qed.

Lemma get_pending_migrations_down w :
  outage w (ticks w) = true →
  get_pending_migrations w =
    (Raise "ServerSelectionTimeoutError", with_ticks (S (ticks w)) w).
Proof.
  intros Hup. unfold get_pending_migrations, bind at 1.
  by rewrite (get_applied_migrations_down _ Hup).
Qed.

(** The loop applies a leading part of the pending list, all of it when
    it ends normally, and otherwise aborts. *)
Lemma apply_each_spec pending w :
  ∃ r w' j, apply_each pending w = (r, w')
    ∧ cached (migrations_dir w) (migrations_dir w')
    ∧ j ≤ length pending
    ∧ name <$> _migrations w' = (name <$> _migrations w) ++ take j pending
    ∧ (r = Ret tt ∧ j = length pending ∨ r = Raise "Abort" ∨ escapes r).
Proof.
  revert w. induction pending as [|f rest IH]; intros w.
  { exists (Ret tt), w, 0. simpl. rewrite app_nil_r.
    split_and!; auto. apply cached_refl. }
  cbn [apply_each]. unfold bind at 1. unfold print at 1, emit at 1.
  unfold bind at 1.
  destruct (apply_migration_spec f
              (with_trace (trace w ++ [Printed (EchoApplying f)]) w))
    as (b & w1 & -> & Hd & _ & _ & Hcase).
  destruct Hcase as [([->|(e & -> & He)] & Hm & _)|(-> & _ & Hm & _)].
  - eexists (Raise "Abort"), _, 0. split; [done|]. simpl.
    rewrite Hm, app_nil_r. split_and!; auto with lia.
  - eexists (Raise e), _, 0. split; [done|]. simpl.
    rewrite Hm, app_nil_r. split_and!; auto with lia.
    right. right. by exists e.
  - unfold bind at 1, print at 1, emit at 1.
    destruct (IH (with_trace (trace w1 ++ [Printed EchoOk]) w1))
      as (r & w2 & j & -> & Hd' & Hj & Hm' & Hr).
    exists r, w2, (S j). split; [done|]. simpl in *.
    split; [by eapply cached_trans|]. split; [lia|]. split.
    + rewrite Hm', Hm, fmap_app. simpl. by rewrite <-(assoc_L (++)).
    + destruct Hr as [[-> ->] | [->|Hr]]; auto.
Qed.

Lemma migrate_spec w :
  ∃ r w' j, migrate w = (r, w')
    ∧ cached (migrations_dir w) (migrations_dir w')
    ∧ j ≤ length (pending_of w)
    ∧ name <$> _migrations w' = (name <$> _migrations w) ++ take j (pending_of w)
    ∧ (r = Ret tt ∧ j = length (pending_of w) ∨ r = Raise "Abort" ∨ escapes r).
Proof.
  unfold migrate, try_except, bind at 1.
  destruct (outage w (ticks w)) eqn:Hup.
  { rewrite (get_pending_migrations_down _ Hup).
    eexists _, _, 0. split; [done|]. simpl. rewrite app_nil_r.
    split_and!; auto with lia. apply cached_refl. }
  rewrite (get_pending_migrations_up _ Hup).
  destruct (pending_of w) as [|f rest] eqn:Hp.
  { eexists _, _, 0. split; [done|]. simpl. rewrite app_nil_r.
    split_and!; auto. apply cached_refl. }
  unfold bind at 1, print at 1, emit at 1. unfold bind at 1.
  destruct (apply_each_spec (f :: rest)
    (with_trace (trace (with_ticks (S (ticks w)) w)
                 ++ [Printed (EchoPendingCount (length (f :: rest)))])
                (with_ticks (S (ticks w)) w)))
    as (r & w1 & j & -> & Hd & Hj & Hm & Hr).
  destruct Hr as [[-> ->] | [->|(e & -> & He)]]; simpl in *.
  - eexists _, _, _. split; [done|]. simpl. split_and!; auto.
  - eexists _, _, j. split; [done|]. simpl. split_and!; auto.
  - rewrite He. eexists _, _, j. split; [done|]. simpl. split_and!; auto.
    right. right. by exists e.
Qed.

Lemma filter_all (P : string → Prop) `{∀ x, Decision (P x)} (l : list string) :
  (∀ x, x ∈ l → P x) → filter P l = l.
Proof.
  induction l as [|a l IH]; intros Hall; [done|].
  rewrite filter_cons. destruct (decide (P a)) as [|Hn].
  - f_equal. apply IH. intros x Hx. apply Hall. by right.
  - destruct Hn. apply Hall. by left.
Qed.

Lemma filter_after_prefix (l1 l2 : list string) :
  NoDup (l1 ++ l2) →
  filter (fun m => m ∉ (list_to_set l1 : gset string)) (l1 ++ l2) = l2.
Proof.
  intros (_ & Hdisj & _)%NoDup_app. rewrite filter_app.
  assert (filter (fun m => m ∉ (list_to_set l1 : gset string)) l1 = []) as ->.
  { apply elem_of_nil_inv. intros x [Hx Hin]%list_elem_of_filter.
    destruct Hx. by apply elem_of_list_to_set. }
  simpl. apply filter_all. intros x Hx Hin%elem_of_list_to_set.
  by eapply Hdisj.
Qed.

Lemma pending_of_prefix k w :
  applied_prefix k w → pending_of w = drop k (units w).
Proof.
  unfold applied_prefix, pending_of. intros ->.
  pose proof (migration_files_NoDup (migrations_dir w)) as Hnd.
  fold (units w) in Hnd. rewrite <-(take_drop k (units w)) in Hnd.
  pose proof (filter_after_prefix _ _ Hnd) as Hf.
  by rewrite take_drop in Hf.
Qed.

Lemma applied_names_app w w' (fs : list string) :
  name <$> _migrations w' = (name <$> _migrations w) ++ fs →
  applied_names w' = applied_names w ∪ list_to_set fs.
Proof.
  unfold applied_names. intros ->. by rewrite list_to_set_app_L.
Qed.

(** C1. When the applied names are a prefix of the ordered units before
    [migrate] runs, they are a prefix of the same ordered units after
    it, however the run ends: the first [K] units for some [K], never a
    set with a gap. The prefix only grows, and each of its lengths before
    the run is bounded by one after it. *)
Theorem migrate_prefix_consistent w :
  prefix_consistent w →
  units (migrate w).2 = units w
  ∧ prefix_consistent (migrate w).2
  ∧ ∀ k, applied_prefix k w → ∃ K, k ≤ K ∧ applied_prefix K (migrate w).2.
Proof.
  intros Hpre.
  destruct (migrate_spec w) as (r & w' & j & Hrun & Hd & _ & Hm & _).
  rewrite Hrun. simpl.
  assert (units w' = units w) as Hu by (by apply cached_files).
  assert (∀ k, applied_prefix k w → applied_prefix (k + j) w') as Hstep.
  { intros k Hk. unfold applied_prefix.
    rewrite (applied_names_app _ _ _ Hm), (pending_of_prefix _ _ Hk), Hk, Hu.
    by rewrite <-list_to_set_app_L, take_take_drop. }
  split; [done|]. split.
  - destruct Hpre as [k Hk]. exists (k + j). by apply Hstep.
  - intros k Hk. exists (k + j). split; [lia|]. by apply Hstep.
Qed.

Lemma pending_of_after_success w w' :
  cached (migrations_dir w) (migrations_dir w') →
  name <$> _migrations w' = (name <$> _migrations w) ++ pending_of w →
  pending_of w' = [].
Proof.
  intros Hd Hm. unfold pending_of at 1.
  assert (units w' = units w) as -> by (by apply cached_files).
  apply elem_of_nil_inv. intros x [Hx Hin]%list_elem_of_filter.
  destruct Hx. rewrite (applied_names_app _ _ _ Hm).
  destruct (decide (x ∈ applied_names w)) as [|Hn]; [set_solver|].
  apply elem_of_union_r, elem_of_list_to_set, list_elem_of_filter. done.
Qed.

Lemma migrate_nothing_pending w :
  pending_of w = [] →
  _migrations (migrate w).2 = _migrations w ∧ db (migrate w).2 = db w
  ∧ ∃ m, trace (migrate w).2 = trace w ++ [Printed m].
Proof.
  intros Hp.
  assert (∃ r m, migrate w =
                 (r, with_trace (trace w ++ [Printed m])
                                (with_ticks (S (ticks w)) w))) as (r & m & ->).
  { unfold migrate, try_except, bind at 1.
    destruct (outage w (ticks w)) eqn:Hup.
    - rewrite (get_pending_migrations_down _ Hup). by eexists _, _.
    - rewrite (get_pending_migrations_up _ Hup), Hp. by eexists _, _. }
  simpl. split_and!; [done..|by eexists].
Qed.

(** C5, as the code has it. When a first [migrate] ends normally, that
    is when it applied every pending unit, a second [migrate] right
    after it leaves the ledger as it is, attempts no ledger write and
    runs no operation of a unit; all it does is read the ledger and
    print one line, and the user's collections stay as they are. *)
Theorem rerun_after_success_idle w :
  (migrate w).1 = Ret tt →
  second_run_idle w
  ∧ db (migrate (migrate w).2).2 = db (migrate w).2
  ∧ ∃ m, trace (migrate (migrate w).2).2 = trace (migrate w).2 ++ [Printed m].
Proof.
  intros Hok.
  destruct (migrate_spec w) as (r & w1 & j & Hrun & Hd & _ & Hm & Hr).
  unfold second_run_idle. rewrite Hrun in *. simpl in *. subst r.
  destruct Hr as [[_ ->] | [[=]|(e & [=] & _)]]. rewrite firstn_all in Hm.
  destruct (migrate_nothing_pending w1 (pending_of_after_success _ _ Hd Hm))
    as (? & ? & m & Ht).
  split; [|by eauto]. split; [done|]. exists [Printed m]. split; [done|].
  by repeat constructor.
Qed.

End Batch.

(** C5, as stated, fails. After a first run that stopped at a unit whose
    [upgrade] raises, the second run loads that unit and calls its
    [upgrade] again. *)
Lemma rerun_after_failure_not_idle :
  ¬ second_run_idle (Sample.world (Some Sample.one_bad_unit) []).
Proof.
  unfold second_run_idle. intros (_ & evs & Ht & Hall).
  vm_compute in Ht. injection Ht as <-.
  do 3 apply Forall_cons in Hall as [_ Hall].
  by apply Forall_cons in Hall as [[_ ?] _].
Qed.

(* ===================================================================== *)
(** * Naming a new unit *)
(* ===================================================================== *)

Section Ordering.

Implicit Types (a b x y : string) (n m : Z) (k : nat).

Lemma compare_refl a : String.compare a a = Eq.
Proof.
  induction a as [|c a IH]; [done|]. simpl.
  unfold Ascii.compare. by rewrite N.compare_refl.
Qed.

(** Strings that start with parts of equal length compare by these
    parts first. *)
Lemma compare_append a b x y :
  String.length a = String.length b →
  String.compare (a +:+ x) (b +:+ y) =
    match String.compare a b with
    | Eq => String.compare x y
    | c => c
    end.
Proof.
  revert b. induction a as [|c a IH]; intros [|c' b] Hlen; try done.
  rewrite !append_cons. simpl. destruct (Ascii.compare c c'); try done.
  apply IH. by injection Hlen.
Qed.

Lemma zfill_length k n : String.length (zfill k n) = k.
Proof.
  revert n. induction k as [|k IH]; intros n; [done|]. simpl.
  rewrite length_append, IH. simpl. lia.
Qed.

Lemma N_of_digit d : 0 <= d < 10 → N_of_ascii (digit d) = Z.to_N (48 + d).
Proof.
  revert d.
  by apply (digit_cases (fun d => N_of_ascii (digit d) = Z.to_N (48 + d))).
Qed.

Lemma digit_lt d e :
  0 <= d → d < e → e < 10 → Ascii.compare (digit d) (digit e) = Lt.
Proof.
  intros. unfold Ascii.compare. rewrite !N_of_digit by lia.
  apply N.compare_lt_iff. lia.
Qed.

Lemma zfill_lt k n m :
  0 <= n → n < m → m < 10 ^ Z.of_nat k →
  String.compare (zfill k n) (zfill k m) = Lt.
Proof.
  revert n m. induction k as [|k IH]; intros n m Hn Hnm Hm.
  { simpl in Hm. lia. }
  rewrite Nat2Z.inj_succ, Z.pow_succ_r in Hm by lia.
  cbn [zfill]. rewrite compare_append by (by rewrite !zfill_length).
  destruct (Z.lt_trichotomy (n / 10) (m / 10)) as [Hlt|[Heq|Hgt]].
  - rewrite IH; [done| |done|].
    + apply Z.div_pos; lia.
    + apply Z.div_lt_upper_bound; lia.
  - pose proof (Z.div_mod n 10 ltac:(lia)).
    pose proof (Z.div_mod m 10 ltac:(lia)).
    pose proof (Z.mod_pos_bound n 10 ltac:(lia)).
    pose proof (Z.mod_pos_bound m 10 ltac:(lia)).
    rewrite Heq, compare_refl. simpl. rewrite digit_lt; [done|lia..].
  - assert (n / 10 <= m / 10) by (apply Z.div_le_mono; lia). lia.
Qed.

Lemma all_digits_append a b :
  all_digits (a +:+ b) = all_digits a && all_digits b.
Proof.
  induction a as [|c a IH]; [done|]. rewrite append_cons. simpl.
  by rewrite IH, andb_assoc.
Qed.

Lemma all_digits_zfill k n : all_digits (zfill k n) = true.
Proof.
  revert n. induction k as [|k IH]; intros n; [done|]. simpl.
  rewrite all_digits_append, IH. simpl.
  rewrite N_of_digit by (apply Z.mod_pos_bound; lia).
  pose proof (Z.mod_pos_bound n 10). rewrite andb_true_r.
  apply andb_true_iff. split; apply N.leb_le; lia.
Qed.

Lemma strftime_length t : String.length (strftime t) = 14%nat.
Proof. unfold strftime. by rewrite !length_append, !zfill_length. Qed.

Lemma strftime_all_digits t : all_digits (strftime t) = true.
Proof. unfold strftime. by rewrite !all_digits_append, !all_digits_zfill. Qed.

(** An earlier second gives a smaller name, whatever follows the
    timestamps. *)
Lemma strftime_lt t1 t2 x y :
  dt_wf t1 → dt_wf t2 →
  lex_ltb (dt_seconds t1) (dt_seconds t2) = true →
  String.compare (strftime t1 +:+ x) (strftime t2 +:+ y) = Lt.
Proof.
  unfold dt_wf, dt_seconds, strftime.
  destruct t1 as [y1 mo1 d1 h1 mi1 s1 us1], t2 as [y2 mo2 d2 h2 mi2 s2 us2].
  cbn [year month day hour minute second microsecond lex_ltb].
  intros Hwf1 Hwf2.
  repeat (progress rewrite ?orb_true_iff, ?andb_true_iff).
  rewrite !Z.ltb_lt, !Z.eqb_eq, !append_assoc.
  intros [Hy|[-> [Hmo|[-> [Hd|[-> [Hh|[-> [Hmi|[-> [Hs|[_ [=]]]]]]]]]]]]];
    repeat first
      [ rewrite compare_append by (by rewrite !zfill_length)
      | rewrite compare_refl
      | rewrite zfill_lt by (simpl; lia) ];
    done.
Qed.

End Ordering.

Section Naming.

Context {D : Type}.
Variable lower : string → string.
Variable isalnum : ascii → bool.
Variable template : string → datetime → Source D.
Implicit Types (w : World D) (description : string).

Lemma keep_replace_sanitized s :
  PyStr.keep (fun c => isalnum c || Ascii.eqb c "_")
    (PyStr.replace "-" "_" (PyStr.replace " " "_" s))
  = sanitized isalnum s.
Proof.
  induction s as [|c s IH]; [done|]. simpl. rewrite IH.
  destruct (Ascii.eqb_spec c " ") as [->|Hsp]; simpl.
  { by rewrite orb_true_r. }
  destruct (Ascii.eqb_spec c "-") as [->|Hhy]; simpl.
  { by rewrite orb_true_r. }
  done.
Qed.

Lemma safe_description_sanitized description :
  safe_description lower isalnum description
  = sanitized isalnum (lower description).
Proof. apply keep_replace_sanitized. Qed.

Lemma startswith_underscores a b :
  a ≠ "" → PyStr.contains "_" a = false →
  PyStr.startswith "__" (a +:+ b) = false.
Proof.
  destruct a as [|c a]; [done|]. intros _. rewrite append_cons.
  cbn [PyStr.contains]. intros [Hc _]%orb_false_iff.
  unfold PyStr.startswith.
  change (String.prefix "__" (String c (a +:+ b)))
    with (if ascii_dec "_" c then String.prefix "_" (a +:+ b) else false).
  destruct (ascii_dec "_" c) as [<-|]; [|done].
  by rewrite Ascii.eqb_refl in Hc.
Qed.

Lemma create_migration_eq description w :
  let t := wall_clock w (ticks w) in
  let filename :=
    strftime t +:+ "_" +:+ safe_description lower isalnum description +:+ ".py" in
  let src := template description (wall_clock w (S (ticks w))) in
  let w2 := with_ticks (S (S (ticks w))) w in
  create_migration lower isalnum template description w =
    match migrations_dir w with
    | None => (Raise "FileNotFoundError", w2)
    | Some d =>
        match open_error w filename with
        | Some cls => (Raise cls, w2)
        | None =>
            match d !! filename with
            | Some Folder => (Raise "IsADirectoryError", w2)
            | _ => (Ret filename, with_dir (Some (<[filename := File src]> d)) w2)
            end
        end
    end.
Proof.
  unfold create_migration, bind, now, tick, write_file, ret. simpl.
  destruct (migrations_dir w) as [d|]; [|done].
  destruct (open_error w _); [done|].
  by destruct (d !! _) as [[|?]|].
Qed.

Lemma strftime_seconds (t1 t2 : datetime) :
  dt_seconds t1 = dt_seconds t2 → strftime t1 = strftime t2.
Proof.
  destruct t1, t2. unfold dt_seconds, strftime. simpl.
  by intros [= -> -> -> -> -> ->].
Qed.

(** C10. [create_migration] names the file with the fourteen digits of
    the clock reading, an underscore, the description lowercased with
    each space and hyphen turned into an underscore and every other
    character that is neither alphanumeric nor an underscore left out,
    and [.py]. That name has suffix [.py] and does not start with a
    double underscore. When the directory exists, the file system takes
    the name and no folder bears it, the file is written under that name
    and is among the discovered units afterwards; when the file system
    refuses the name, [create_migration] raises and writes nothing. A
    name made at an earlier second is smaller than a name made at a later
    one, whatever the descriptions; two names made within the same second
    compare as their descriptions do. *)
Theorem create_migration_name description w :
  dt_wf (wall_clock w (ticks w)) →
  let t := wall_clock w (ticks w) in
  let text := sanitized isalnum (lower description) in
  let filename := strftime t +:+ "_" +:+ text +:+ ".py" in
  String.length (strftime t) = 14%nat
  ∧ all_digits (strftime t) = true
  ∧ safe_description lower isalnum description = text
  ∧ suffix filename = ".py"
  ∧ PyStr.startswith "__" filename = false
  ∧ (∀ d, migrations_dir w = Some d → open_error w filename = None →
          d !! filename ≠ Some Folder →
          (create_migration lower isalnum template description w).1
          = Ret filename)
  ∧ (∀ d cls, migrations_dir w = Some d → open_error w filename = Some cls →
          (create_migration lower isalnum template description w).1
          = Raise cls
          ∧ migrations_dir
              (create_migration lower isalnum template description w).2
            = Some d)
  ∧ (∀ f w', create_migration lower isalnum template description w
             = (Ret f, w') →
             f = filename ∧ f ∈ units w'
             ∧ ∃ src, entry_at w' f = Some (File src))
  ∧ (∀ t' text', dt_wf t' →
                 lex_ltb (dt_seconds t) (dt_seconds t') = true →
                 String.compare filename (strftime t' +:+ "_" +:+ text' +:+ ".py")
                 = Lt)
  ∧ (∀ t' text', dt_seconds t' = dt_seconds t →
                 String.compare filename (strftime t' +:+ "_" +:+ text' +:+ ".py")
                 = String.compare (text +:+ ".py") (text' +:+ ".py")).
Proof.
  intros Hwf t text filename.
  assert (Hne : strftime t +:+ "_" +:+ text ≠ "").
  { intros Heq. apply (f_equal String.length) in Heq.
    rewrite length_append, strftime_length in Heq. done. }
  assert (Hsfx : suffix filename = ".py").
  { unfold filename. rewrite <-!append_assoc.
    apply suffix_stem_py. by rewrite append_assoc. }
  assert (Hst : PyStr.startswith "__" filename = false).
  { apply startswith_underscores; [|apply strftime_no_underscore].
    intros Heq. apply (f_equal String.length) in Heq.
    by rewrite strftime_length in Heq. }
  split; [apply strftime_length|]. split; [apply strftime_all_digits|].
  split; [apply safe_description_sanitized|].
  split; [done|]. split; [done|].
  pose proof (create_migration_eq description w) as Heq. simpl in Heq.
  rewrite safe_description_sanitized in Heq.
  fold t in Heq. fold text in Heq. fold filename in Heq.
  split_and!.
  - intros d Hd Hopen Hnf. rewrite Heq, Hd, Hopen.
    by destruct (d !! filename) as [[|?]|].
  - intros d cls Hd Hopen. by rewrite Heq, Hd, Hopen.
  - intros f w'. rewrite Heq.
    destruct (migrations_dir w) as [d|]; [|done].
    destruct (open_error w filename); [done|].
    assert (∀ src, filename ∈
                   units (with_dir (Some (<[filename := File src]> d))
                                   (with_ticks (S (S (ticks w))) w))) as Hin.
    { intros src. unfold units. simpl. apply elem_of_migration_files.
      split; [|done]. exists src. apply lookup_insert_eq. }
    destruct (d !! filename) as [[|?]|]; [done|..]; intros [= <- <-];
      (split; [done|]); (split; [apply Hin|]);
      unfold entry_at; simpl; rewrite lookup_insert_eq; by eexists.
  - intros t' text' Hwf' Hlt. by apply strftime_lt.
  - intros t' text' Hsec. unfold filename.
    rewrite (strftime_seconds _ _ Hsec).
    rewrite compare_append by done. rewrite compare_refl.
    change ("_" +:+ text +:+ ".py") with (String "_" (text +:+ ".py")).
    change ("_" +:+ text' +:+ ".py") with (String "_" (text' +:+ ".py")).
    done.
Qed.

End Naming.

(** C10, as stated, fails for the order. Two units made within the same
    second, the first described as [b first] and the second as
    [a second]: the name of the second is the smaller one, and discovery
    lists it first. *)
Lemma create_migration_same_second :
  (create_migration Sample.lower Sample.isalnum Sample.template "b first"
     (MoreSamples.fine_world (Some ∅) [])).1
  = Ret "20251105151529_b_first.py"
  ∧ (create_migration Sample.lower Sample.isalnum Sample.template "a second"
       (create_migration Sample.lower Sample.isalnum Sample.template "b first"
          (MoreSamples.fine_world (Some ∅) [])).2).1
    = Ret "20251105151529_a_second.py"
  ∧ units
      (create_migration Sample.lower Sample.isalnum Sample.template "a second"
         (create_migration Sample.lower Sample.isalnum Sample.template
            "b first" (MoreSamples.fine_world (Some ∅) [])).2).2
    = ["20251105151529_a_second.py"; "20251105151529_b_first.py"].
Proof. vm_compute. repeat split. Qed.

(* ===================================================================== *)
(** * Worked examples *)
(* ===================================================================== *)

Section Examples.

Import Sample.

Example suffix_unit : suffix "20250101000000_init.py" = ".py".
Proof. reflexivity. Qed.
Example suffix_dotfile : suffix ".py" = "".
Proof. reflexivity. Qed.
Example suffix_two_dots : suffix "a.tar.py" = ".py".
Proof. reflexivity. Qed.
Example stem_unit : stem "20250101000000_init.py" = "20250101000000_init".
Proof. reflexivity. Qed.
Example stem_trailing_dot : stem "notes." = "notes.".
Proof. reflexivity. Qed.
Example strftime_sample :
  strftime (DateTime 2025 11 5 15 15 29 123456) = "20251105151529".
Proof. reflexivity. Qed.
Example description_sample :
  description_of "20250102000000_add_index" = Ret "add_index".
Proof. reflexivity. Qed.

(** Discovery leaves out the package marker, the text file and the
    cache folder, and sorts what remains. *)
Example discovery_sample :
  migration_files (Some two_units) = [init; add_index].
Proof. vm_compute. reflexivity. Qed.

(** Two units and an empty ledger: both are applied, in order, and the
    status reports two of two applied and none pending. *)
Example scenario_fresh :
  let '(r, w) := migrate (world (Some two_units) []) in
  r = Ret tt ∧ name <$> _migrations w = [init; add_index] ∧ db w = 2
  ∧ filter (fun e => is_call e) (trace w)
    = [ExecModule init; CallUpgrade init;
       InsertOne (mkDoc 0 "20250101000000_init" init "init" (clock 1));
       ExecModule add_index; CallUpgrade add_index;
       InsertOne (mkDoc 1 "20250102000000_add_index" add_index "add_index"
                        (clock 3))]
  ∧ (match (get_status w).1 with
     | Ret st => (total st, applied st, pending st) = (2, 2, 0)%nat
     | Raise _ => False
     end).
Proof. vm_compute. repeat split. Qed.

(** The same units with [init] already recorded: only [add_index] is
    executed. *)
Example scenario_one_applied :
  let '(r, w) := migrate (world (Some two_units) [docA]) in
  r = Ret tt ∧ name <$> _migrations w = [init; add_index] ∧ db w = 1
  ∧ (CallUpgrade init ∉ trace w) ∧ (CallUpgrade add_index ∈ trace w).
Proof.
  vm_compute. split_and!; try reflexivity.
  - intros H. repeat (apply elem_of_cons in H as [[=]|H]).
    by apply elem_of_nil in H.
  - do 3 right. left.
Qed.

(** A failing unit stops the run; running again executes it again. *)
Example scenario_retry :
  let w1 := (migrate (world (Some one_bad_unit) [])).2 in
  let w2 := (migrate w1).2 in
  (migrate (world (Some one_bad_unit) [])).1 = Raise "Abort"
  ∧ _migrations w1 = [] ∧ _migrations w2 = []
  ∧ filter (fun e => is_call e) (trace w1)
    = [ExecModule init; CallUpgrade init]
  ∧ filter (fun e => is_call e) (trace w2)
    = [ExecModule init; CallUpgrade init; ExecModule init; CallUpgrade init].
Proof. vm_compute. repeat split. Qed.

(** Loading a source file leaves a cache folder beside it, unless the
    interpreter is told not to write bytecode or the file does not
    compile. *)
Example cache_sample :
  (∃ e, entry_at (load_migration init (world (Some one_bad_unit) [])).2
          "__pycache__" = Some e ∧ is_file e = false)
  ∧ entry_at (load_migration init
                (mkWorld (Some one_bad_unit) 0 [] 0%N 0%nat clock
                         (fun _ => false) [] true name_too_long)).2
      "__pycache__" = None
  ∧ entry_at (load_migration init (world (Some {[ init := File broken ]}) [])).2
      "__pycache__" = None.
Proof. split; [exists Folder|]; vm_compute; repeat split. Qed.

(** A description of three hundred letters gives a name the file system
    refuses: [create_migration] raises and writes nothing. *)
Example long_name_sample :
  let '(r, w) := create_migration lower isalnum template
                   (Nat.iter 300 (String "a") "")
                   (world (Some two_units) []) in
  r = Raise "OSError" ∧ migrations_dir w = Some two_units.
Proof. vm_compute. repeat split. Qed.

(** Rolling back on an empty ledger fails and mutates nothing. *)
Example scenario_nothing_to_roll_back :
  let '(r, w) := rollback_migration None (world (Some two_units) []) in
  r = Ret false ∧ trace w = [Printed MsgNothingToRollBack]
  ∧ db w = 0 ∧ _migrations w = [].
Proof. vm_compute. repeat split. Qed.

(** With [init] applied first and [add_index] second, a rollback by the
    name of [init] targets [init]. *)
Example scenario_rollback_named :
  rollback_migration (Some init) (world (Some two_units) [docA; docB])
  = try_except (downgrade_and_erase docA) rollback_failed
      (with_ticks 1 (world (Some two_units) [docA; docB])).
Proof. reflexivity. Qed.

(** An empty string stands for no name: the latest entry is the target. *)
Example rollback_empty_name :
  rollback_migration (Some "") (world (Some two_units) [docA; docB])
  = rollback_migration None (world (Some two_units) [docA; docB]).
Proof. reflexivity. Qed.

End Examples.

(* ===================================================================== *)
(** * The theorems at concrete worlds *)
(* ===================================================================== *)

Section Instances.

Import Sample.

(** Listing the directory backwards gives the same units. *)
Lemma get_migration_files_spec_witness :
  discover (reverse (map_to_list two_units)) = [init; add_index].
Proof.
  destruct (get_migration_files_spec (world (Some two_units) []))
    as (_ & _ & _ & H).
  destruct (H two_units) as (_ & _ & _ & Hperm).
  rewrite (Hperm (reverse (map_to_list two_units)) (reverse_Permutation _)).
  vm_compute. reflexivity.
Defined.

Lemma migrate_prefix_consistent_witness :
  prefix_consistent (world (Some two_units) [docA])
  ∧ prefix_consistent (migrate (world (Some two_units) [docA])).2.
Proof.
  assert (prefix_consistent (world (Some two_units) [docA])) as H.
  { exists 1%nat. vm_compute. reflexivity. }
  split; [exact H|].
  apply (migrate_prefix_consistent (world (Some two_units) [docA]) H).
Defined.



Lemma rerun_after_success_idle_witness :
  second_run_idle (world (Some two_units) []).
Proof.
  apply (rerun_after_success_idle (world (Some two_units) [])).
  vm_compute. reflexivity.
Defined.



Lemma applied_entry_fields_witness :
  ∃ doc, _migrations
           (apply_migration init
              (MoreSamples.fine_world (Some two_units) [])).2
         = [doc]
    ∧ name doc = init ∧ version doc = "20250101000000_init"
    ∧ description doc = "init"
    ∧ applied_at doc = DateTime 2025 11 5 15 15 29 123000.
Proof.
  destruct (applied_entry_fields init
              (MoreSamples.fine_world (Some two_units) [])
              (apply_migration init
                 (MoreSamples.fine_world (Some two_units) [])).2)
    as (doc & Hm & Hn & Hv & _ & Hd & _ & _ & _ & Ht & _).
  { vm_compute. reflexivity. }
  exists doc. split; [exact Hm|]. split; [exact Hn|]. split; [exact Hv|].
  split; [rewrite Hd, Hv; reflexivity|]. rewrite Ht. vm_compute. reflexivity.
Defined.

(** An entry whose file is gone: one applied and two pending against a
    total of two. *)
Lemma get_status_counts_witness :
  ∃ st w', get_status (world (Some two_units)
                         [mkDoc 0 "20240101000000_gone"
                                "20240101000000_gone.py" "gone" t1])
           = (Ret st, w')
    ∧ total st = 2%nat ∧ applied st = 1%nat ∧ pending st = 2%nat.
Proof.
  destruct (get_status_counts
              (world (Some two_units)
                 [mkDoc 0 "20240101000000_gone"
                        "20240101000000_gone.py" "gone" t1]))
    as (st & w' & Hrun & _ & Ht & Ha & _ & Hp & Hpl & _); [reflexivity|].
  exists st, w'. split; [exact Hrun|]. split; [exact Ht|].
  split; [exact Ha|]. rewrite Hpl, Hp. vm_compute. reflexivity.
Defined.

Lemma create_migration_name_witness :
  (create_migration lower isalnum template "Add Users-Table! v2"
     (world (Some two_units) [])).1
  = Ret "20251105151500_add_users_table_v2.py".
Proof.
  destruct (create_migration_name lower isalnum template
              "Add Users-Table! v2" (world (Some two_units) []))
    as (_ & _ & _ & _ & _ & H & _).
  { unfold dt_wf. simpl. lia. }
  apply (H two_units); [reflexivity|reflexivity|]. vm_compute. discriminate.
Defined.

End Instances.

(* ===================================================================== *)
(** * The database name of the configuration *)
(* ===================================================================== *)

Section Settings.

Implicit Types (env : gmap string string) (url base seg : string).

Lemma rsplit1_absent c s :
  PyStr.contains c s = false → PyStr.rsplit1 c s = [s].
Proof.
  induction s as [|a s IH]; [done|]. cbn [PyStr.contains PyStr.rsplit1].
  intros [Ha Hs]%orb_false_iff. rewrite (IH Hs). cbn beta iota.
  by rewrite Ha.
Qed.

Lemma rsplit1_last c base seg :
  PyStr.contains c seg = false →
  PyStr.rsplit1 c (base +:+ String c seg) = [base; seg].
Proof.
  intros Hseg. induction base as [|a base IH].
  - rewrite append_nil_l. cbn [PyStr.rsplit1].
    rewrite (rsplit1_absent _ _ Hseg). cbn beta iota.
    by rewrite Ascii.eqb_refl.
  - rewrite append_cons. cbn [PyStr.rsplit1]. by rewrite IH.
Qed.

Lemma split_at_last c s :
  PyStr.contains c s = true →
  ∃ base seg, s = base +:+ String c seg ∧ PyStr.contains c seg = false.
Proof.
  induction s as [|a s IH]; [done|]. cbn [PyStr.contains].
  destruct (PyStr.contains c s) eqn:Hs.
  - intros _. destruct (IH eq_refl) as (base & seg & -> & Hseg).
    exists (String a base), seg. by rewrite append_cons.
  - rewrite orb_false_r. intros ->%Ascii.eqb_eq. by exists "", s.
Qed.

Lemma database_of_last_segment (db_env : option string) base seg :
  truthy db_env = false → PyStr.contains "/" seg = false →
  Config.database db_env (base +:+ "/" +:+ seg) =
    if negb (String.eqb seg "") && negb (PyStr.contains "?" seg)
    then seg else "nauta_db".
Proof.
  intros Hdb Hseg. unfold Config.database. rewrite Hdb. cbn [negb].
  change (base +:+ "/" +:+ seg) with (base +:+ String "/" seg).
  rewrite contains_append. cbn [PyStr.contains]. rewrite Ascii.eqb_refl.
  rewrite orb_true_r. rewrite (rsplit1_last "/" base seg Hseg).
  cbn [length Nat.ltb Nat.leb lookup list_lookup default truthy andb].
  done.
Qed.

Lemma settings_database env :
  Config.mongodb_database (Config.settings env)
  = Config.database (env !! "MONGODB_DATABASE")
      (default "mongodb://localhost:27017/nauta_db" (env !! "MONGODB_URL")).
Proof.
  unfold Config.settings, Config.getenv. cbn [Config.mongodb_database].
  by destruct (env !! "MONGODB_DATABASE"), (env !! "MONGODB_URL").
Qed.

(** X1. With [MONGODB_DATABASE] unset or empty, the database name is the
    part of [MONGODB_URL] after its last slash whenever that part is not
    empty and holds no question mark. For a URL without a path, such as
    [mongodb://localhost:27017], that part is the host and port. *)
Theorem database_from_url env base seg :
  truthy (env !! "MONGODB_DATABASE") = false →
  env !! "MONGODB_URL" = Some (base +:+ "/" +:+ seg) →
  seg ≠ "" → PyStr.contains "/" seg = false → PyStr.contains "?" seg = false →
  Config.mongodb_database (Config.settings env) = seg.
Proof.
  intros Hdb Hurl Hne Hs Hq. rewrite settings_database, Hurl.
  cbn [default from_option id].
  rewrite (database_of_last_segment _ _ _ Hdb Hs), Hq.
  by destruct (String.eqb_spec seg "").
Qed.

(** X2. With [MONGODB_DATABASE] unset or empty, the database name falls
    back to [nauta_db] when the URL has no slash, when it ends with a
    slash, and when the part after its last slash holds a question mark:
    a database named in a URL that carries options is not used. *)
Theorem database_fallback env url :
  truthy (env !! "MONGODB_DATABASE") = false →
  env !! "MONGODB_URL" = Some url →
  (PyStr.contains "/" url = false
   ∨ ∃ base seg, url = base +:+ "/" +:+ seg ∧ PyStr.contains "/" seg = false
                 ∧ (seg = "" ∨ PyStr.contains "?" seg = true)) →
  Config.mongodb_database (Config.settings env) = "nauta_db".
Proof.
  intros Hdb Hurl Hcase. rewrite settings_database, Hurl.
  cbn [default from_option id].
  destruct Hcase as [Hno|(base & seg & -> & Hs & Hbad)].
  - unfold Config.database. by rewrite Hdb, Hno.
  - rewrite (database_of_last_segment _ _ _ Hdb Hs).
    destruct Hbad as [-> | ->]; [done|]. by rewrite andb_false_r.
Qed.

(** X3. Whatever the environment, the database name of the configuration
    is not empty; when it does not come from [MONGODB_DATABASE] it holds
    neither a slash nor a question mark; and a non-empty
    [MONGODB_DATABASE] is taken as it is, whatever the URL says. *)
Theorem database_well_formed env :
  Config.mongodb_database (Config.settings env) ≠ ""
  ∧ (truthy (env !! "MONGODB_DATABASE") = false →
     PyStr.contains "/" (Config.mongodb_database (Config.settings env)) = false
     ∧ PyStr.contains "?" (Config.mongodb_database (Config.settings env))
       = false)
  ∧ (∀ v, env !! "MONGODB_DATABASE" = Some v → v ≠ "" →
          Config.mongodb_database (Config.settings env) = v).
Proof.
  rewrite settings_database.
  set (url := default _ (env !! "MONGODB_URL")).
  assert (truthy (env !! "MONGODB_DATABASE") = false →
          Config.database (env !! "MONGODB_DATABASE") url ≠ ""
          ∧ PyStr.contains "/" (Config.database (env !! "MONGODB_DATABASE") url)
            = false
          ∧ PyStr.contains "?" (Config.database (env !! "MONGODB_DATABASE") url)
            = false) as Hurl.
  { intros Hdb. destruct (PyStr.contains "/" url) eqn:Hsl.
    - destruct (split_at_last _ _ Hsl) as (base & seg & -> & Hs).
      change (base +:+ String "/" seg) with (base +:+ "/" +:+ seg).
      rewrite (database_of_last_segment _ base seg Hdb Hs).
      destruct (String.eqb_spec seg "") as [->|Hne]; [done|].
      destruct (PyStr.contains "?" seg) eqn:Hq; done.
    - unfold Config.database. by rewrite Hdb, Hsl. }
  split; [|split].
  - destruct (truthy (env !! "MONGODB_DATABASE")) eqn:Hdb; [|by apply Hurl].
    unfold Config.database. rewrite Hdb. simpl.
    destruct (env !! "MONGODB_DATABASE") as [v|]; [|done]. simpl in *.
    by destruct (String.eqb_spec v "").
  - intros Hdb. by apply Hurl.
  - intros v Hv Hne. unfold Config.database. rewrite Hv. simpl.
    by destruct (String.eqb_spec v "").
Qed.

End Settings.

(* ===================================================================== *)
(** * What a run leaves in the trace and in the ledger *)
(* ===================================================================== *)

Section Runs.

Context {D : Type}.
Implicit Types (w : World D) (f filepath : string) (pending : list string).
Local Open Scope nat_scope.

Lemma forward_event_mono (fs gs : list string) e :
  (∀ n, n ∈ fs → n ∈ gs) → forward_event fs e → forward_event gs e.
Proof. destruct e; simpl; auto. Qed.

(** Everything [apply_migration] does for a path, in one statement. *)
Lemma apply_migration_run filepath w :
  ∃ r w' evs, apply_migration filepath w = (r, w')
    ∧ cached (migrations_dir w) (migrations_dir w')
    ∧ wall_clock w' = wall_clock w ∧ outage w' = outage w
    ∧ trace w' = trace w ++ evs
    ∧ Forall (forward_event [filepath]) evs
    ∧ (((r = Ret false ∨ escapes r)
        ∧ _migrations w' = _migrations w ∧ next_oid w' = next_oid w)
       ∨ (r = Ret true
          ∧ _migrations w' = _migrations w ++ [entry_for filepath w]
          ∧ next_oid w' = N.succ (next_oid w))).
Proof.
  destruct (load_migration_run filepath w)
    as (o & w1 & evs & Hl & (Hd & Hm & Ho & Ht & Hc & Hout & _) & Htr & Hevs
        & Hexc).
  assert (filepath ∈ [filepath]) as Hin by (by left).
  destruct o as [[m|]|e].
  3:{ rewrite (apply_migration_load_escapes _ _ _ _ Hl).
      exists (Raise e), w1, evs. split_and!; try done. left.
      split; [|done]. right. exists e. split; [done|]. by apply Hexc. }
  2:{ rewrite (apply_migration_not_loaded _ _ _ Hl).
      exists (Ret false), w1, evs. split_and!; try done. left.
      split; [by left|done]. }
  destruct (upgrade m (db w1)) as [[[]|e] d] eqn:Hup.
  - destruct (apply_migration_upgrade_returns _ _ _ _ _ Hl Hup)
      as (w' & -> & E1 & E2 & E3 & E4 & (evs' & Htr' & Hevs') & Hcase).
    eexists _, w', (evs ++ CallUpgrade filepath :: evs').
    split; [done|]. rewrite E1, E2, E3. split_and!; try done.
    + by rewrite Htr', Htr, <-(assoc_L (++)).
    + apply Forall_app. split; [done|]. by constructor.
    + destruct (outage w1 (S (ticks w1))); simpl; destruct Hcase as [E5 E6].
      * left. split; [by left|]. rewrite E5, E6. by split.
      * right. split; [done|]. rewrite E5, E6, Hm, Ho.
        split; [|done]. unfold entry_for. by rewrite Ho, Ht, Hc.
  - destruct (is_Exception e) eqn:He.
    + rewrite (apply_migration_upgrade_raises _ _ _ _ _ _ Hl Hup He).
      eexists _, _, (evs ++ [_; _]). split; [done|]. simpl.
      split_and!; try done.
      * by rewrite Htr, <-!(assoc_L (++)).
      * apply Forall_app. split; [done|]. by repeat constructor.
      * left. split; [by left|done].
    + rewrite (apply_migration_upgrade_escapes _ _ _ _ _ _ Hl Hup He).
      eexists _, _, (evs ++ [_]). split; [done|]. simpl.
      split_and!; try done.
      * by rewrite Htr, <-!(assoc_L (++)).
      * apply Forall_app. split; [done|]. by repeat constructor.
      * left. split; [right; by exists e|done].
Qed.

(** The loop records a leading part of the pending list, in its order. *)
Lemma apply_each_run pending w :
  ∃ r w' docs evs, apply_each pending w = (r, w')
    ∧ cached (migrations_dir w) (migrations_dir w')
    ∧ _migrations w' = _migrations w ++ docs
    ∧ name <$> docs `prefix_of` pending
    ∧ trace w' = trace w ++ evs
    ∧ Forall (forward_event pending) evs
    ∧ (r = Ret tt ∧ name <$> docs = pending ∨ r = Raise "Abort" ∨ escapes r).
Proof.
  revert w. induction pending as [|f rest IH]; intros w.
  { exists (Ret tt), w, [], []. simpl. rewrite !app_nil_r.
    split_and!; auto. apply cached_refl. }
  cbn [apply_each]. unfold bind at 1. unfold print at 1, emit at 1.
  unfold bind at 1.
  destruct (apply_migration_run f
              (with_trace (trace w ++ [Printed (EchoApplying f)]) w))
    as (b & w1 & evs & -> & Hd & _ & _ & Htr & Hevs & Hcase).
  simpl in *.
  assert (∀ n, n ∈ [f] → n ∈ f :: rest) as Hsub1.
  { intros n ->%list_elem_of_singleton. by left. }
  assert (∀ n, n ∈ rest → n ∈ f :: rest) as Hsub2 by (intros n ?; by right).
  destruct Hcase as [([->|(e & -> & He)] & Hm & _)|(-> & Hm & _)].
  - eexists (Raise "Abort"), _, [], (_ :: evs ++ [_]).
    split; [done|]. simpl. rewrite app_nil_r. split_and!; auto.
    + apply prefix_nil.
    + by rewrite Htr, <-!(assoc_L (++)).
    + constructor; [done|]. apply Forall_app. split; [|by repeat constructor].
      eapply Forall_impl; [exact Hevs|]. intros e. by apply forward_event_mono.
  - eexists (Raise e), _, [], (_ :: evs).
    split; [done|]. simpl. rewrite app_nil_r. split_and!; auto.
    + apply prefix_nil.
    + by rewrite Htr, <-!(assoc_L (++)).
    + constructor; [done|].
      eapply Forall_impl; [exact Hevs|]. intros e0. by apply forward_event_mono.
    + right. right. by exists e.
  - unfold bind at 1, print at 1, emit at 1.
    destruct (IH (with_trace (trace w1 ++ [Printed EchoOk]) w1))
      as (r & w2 & docs & evs2 & -> & Hd' & Hm' & Hpre & Htr' & Hevs2 & Hr).
    simpl in *.
    exists r, w2, (entry_for f (with_trace (trace w ++ [Printed (EchoApplying f)]) w)
                   :: docs),
      (Printed (EchoApplying f) :: evs ++ Printed EchoOk :: evs2).
    split; [done|]. split_and!.
    + by eapply cached_trans.
    + by rewrite Hm', Hm, <-(assoc_L (++)).
    + rewrite fmap_cons. by apply prefix_cons.
    + rewrite Htr', Htr. by rewrite <-!(assoc_L (++)).
    + constructor; [done|]. apply Forall_app. split.
      * eapply Forall_impl; [exact Hevs|]. intros e.
        by apply forward_event_mono.
      * constructor; [done|]. eapply Forall_impl; [exact Hevs2|].
        intros e. by apply forward_event_mono.
    + destruct Hr as [[-> Hn] | Hr]; [left|by right].
      split; [done|]. by rewrite fmap_cons, Hn.
Qed.

Lemma migrate_run w :
  ∃ r w' docs evs, migrate w = (r, w')
    ∧ cached (migrations_dir w) (migrations_dir w')
    ∧ _migrations w' = _migrations w ++ docs
    ∧ name <$> docs `prefix_of` pending_of w
    ∧ trace w' = trace w ++ evs
    ∧ Forall (forward_event (pending_of w)) evs
    ∧ (r = Ret tt ∧ name <$> docs = pending_of w ∨ r = Raise "Abort"
       ∨ escapes r).
Proof.
  unfold migrate, try_except, bind at 1.
  destruct (outage w (ticks w)) eqn:Hup.
  { rewrite (get_pending_migrations_down _ Hup).
    eexists _, _, [], [_]. split; [done|]. simpl. rewrite app_nil_r.
    split_and!; auto; [apply cached_refl|apply prefix_nil|by repeat constructor]. }
  rewrite (get_pending_migrations_up _ Hup).
  destruct (pending_of w) as [|f rest] eqn:Hp.
  { eexists _, _, [], [_]. split; [done|]. simpl. rewrite app_nil_r.
    split_and!; auto; [apply cached_refl|by repeat constructor]. }
  unfold bind at 1, print at 1, emit at 1. unfold bind at 1.
  destruct (apply_each_run (f :: rest)
    (with_trace (trace (with_ticks (S (ticks w)) w)
                 ++ [Printed (EchoPendingCount (length (f :: rest)))])
                (with_ticks (S (ticks w)) w)))
    as (r & w1 & docs & evs & -> & Hd & Hm & Hpre & Htr & Hevs & Hr).
  simpl in *.
  destruct Hr as [[-> Hn] | [->|(e & -> & He)]]; simpl.
  - eexists _, _, docs, (_ :: evs ++ [_]). split; [done|]. simpl.
    split_and!; auto.
    + by rewrite Htr, <-!(assoc_L (++)).
    + constructor; [done|]. apply Forall_app. split; [done|].
      by repeat constructor.
  - eexists _, _, docs, (_ :: evs ++ [_]). split; [done|]. simpl.
    split_and!; auto.
    + by rewrite Htr, <-!(assoc_L (++)).
    + constructor; [done|]. apply Forall_app. split; [done|].
      by repeat constructor.
  - rewrite He. eexists _, _, docs, (_ :: evs). split; [done|]. simpl.
    split_and!; auto.
    + by rewrite Htr, <-!(assoc_L (++)).
    + by constructor.
    + right. right. by exists e.
Qed.

End Runs.

(* ===================================================================== *)
(** * What [migrate] guarantees *)
(* ===================================================================== *)

Section BatchProperties.

Context {D : Type}.
Implicit Types (w : World D) (f : string).
Local Open Scope nat_scope.

Lemma StronglySorted_sublist {A} (R : relation A) (l1 l2 : list A) :
  l1 `sublist_of` l2 → StronglySorted R l2 → StronglySorted R l1.
Proof.
  induction 1 as [|x l1 l2 Hsub IH|x l1 l2 Hsub IH]; [done|..].
  - intros [Hs Hall]%StronglySorted_inv. constructor; [by apply IH|].
    apply Forall_forall. intros y Hy.
    eapply (proj1 (Forall_forall _ _) Hall), elem_of_sublist; eauto.
  - intros [Hs _]%StronglySorted_inv. by apply IH.
Qed.

Lemma prefix_sublist {A} (l1 l2 : list A) :
  l1 `prefix_of` l2 → l1 `sublist_of` l2.
Proof. intros [k ->]. by apply sublist_inserts_r. Qed.

Lemma pending_of_sublist w : pending_of w `sublist_of` units w.
Proof. apply sublist_filter. Qed.

Lemma elem_of_pending_of w f :
  f ∈ pending_of w ↔ f ∈ units w ∧ f ∉ name <$> _migrations w.
Proof.
  unfold pending_of. rewrite list_elem_of_filter, elem_of_applied_names.
  tauto.
Qed.

(** X4. [migrate] runs forward only, and only on units that were pending
    when it started: every module it executes, every [upgrade] it calls
    and every entry it tries to record belongs to a discovered unit
    without a ledger entry; it never calls a [downgrade] and never
    deletes from the ledger. *)
Theorem migrate_runs_only_pending w :
  ∃ evs, trace (migrate w).2 = trace w ++ evs
    ∧ Forall (forward_event (pending_of w)) evs
    ∧ (∀ n, ExecModule n ∈ evs ∨ CallUpgrade n ∈ evs →
            n ∈ units w ∧ n ∉ name <$> _migrations w)
    ∧ (∀ d, InsertOne d ∈ evs →
            name d ∈ units w ∧ name d ∉ name <$> _migrations w)
    ∧ (∀ n, CallDowngrade n ∉ evs) ∧ (∀ i, DeleteOne i ∉ evs).
Proof.
  destruct (migrate_run w) as (r & w' & docs & evs & -> & _ & _ & _ & Htr & Hevs & _).
  exists evs. simpl. split; [done|]. split; [done|].
  pose proof (proj1 (Forall_forall _ _) Hevs) as Hall.
  split_and!.
  - intros n [Hn|Hn]; apply elem_of_pending_of; apply (Hall _ Hn).
  - intros d Hd. apply elem_of_pending_of. apply (Hall _ Hd).
  - intros n Hn. apply (Hall _ Hn).
  - intros i Hi. apply (Hall _ Hi).
Qed.

(** X5. [migrate] only appends to the ledger: the entries it had stay in
    place, and the names of the new entries are a leading part of the
    pending list, so that they come in strictly ascending order of name
    and none of them had an entry before. The directory afterwards is
    the directory before up to the bytecode cache: at most a
    [__pycache__] folder is new, every entry it had is still there
    unchanged, and the discovered units are the same. *)
Theorem migrate_appends_in_order w :
  ∃ docs, _migrations (migrate w).2 = _migrations w ++ docs
    ∧ name <$> docs `prefix_of` pending_of w
    ∧ StronglySorted String.le (name <$> docs)
    ∧ NoDup (name <$> docs)
    ∧ (∀ n, n ∈ name <$> docs → n ∈ units w ∧ n ∉ name <$> _migrations w)
    ∧ cached (migrations_dir w) (migrations_dir (migrate w).2)
    ∧ units (migrate w).2 = units w
    ∧ (∀ n e, entry_at w n = Some e → entry_at (migrate w).2 n = Some e)
    ∧ (∀ n, n ≠ "__pycache__" → entry_at (migrate w).2 n = entry_at w n).
Proof.
  destruct (migrate_run w) as (r & w' & docs & evs & -> & Hd & Hm & Hpre & _).
  exists docs. simpl. split; [done|]. split; [done|].
  assert (name <$> docs `sublist_of` units w) as Hsub.
  { etrans; [by apply prefix_sublist|apply pending_of_sublist]. }
  split_and!.
  - eapply StronglySorted_sublist; [exact Hsub|apply (migration_files_sorted (migrations_dir w))].
  - eapply sublist_NoDup; [apply (migration_files_NoDup (migrations_dir w))|exact Hsub].
  - intros n Hn. apply elem_of_pending_of. by eapply elem_of_prefix.
  - done.
  - by apply cached_files.
  - intros n e. by apply cached_lookup.
  - intros n Hn. by apply cached_lookup_ne.
Qed.

(** X6. [migrate] keeps the ledger at one entry per name at most: when no
    two entries bear the same name before a run, none do after it. *)
Theorem migrate_keeps_names_unique w :
  NoDup (name <$> _migrations w) →
  NoDup (name <$> _migrations (migrate w).2).
Proof.
  intros Hnd.
  destruct (migrate_run w) as (r & w' & docs & evs & -> & Hd & Hm & Hpre & _).
  simpl. rewrite Hm, fmap_app. apply NoDup_app. split_and!.
  - done.
  - intros n Hn Hn'.
    apply (elem_of_prefix _ _ _ Hn'), elem_of_pending_of in Hpre.
    by destruct Hpre.
  - eapply sublist_NoDup; [apply (migration_files_NoDup (migrations_dir w))|].
    etrans; [by apply prefix_sublist|apply pending_of_sublist].
Qed.

Lemma get_status_inv w st w' :
  get_status w = (Ret st, w') → outage w (ticks w) = false.
Proof.
  destruct (outage w (ticks w)) eqn:Hup; [|done].
  unfold get_status, bind at 1. unfold get_migration_files. unfold bind at 1.
  by rewrite (get_applied_migrations_down _ Hup).
Qed.

(** X7. [migrate] ends normally, raises [Abort], or lets through an
    exception that is not derived from [Exception]: whatever exception
    derived from [Exception] a unit raises ends as [Abort]. When
    [migrate] ends normally no unit is pending any more: every
    discovered unit has a ledger entry, and a status read that follows
    reports zero pending. *)
Theorem migrate_completes w :
  ((migrate w).1 = Ret tt ∨ (migrate w).1 = Raise "Abort"
   ∨ escapes (migrate w).1)
  ∧ (∀ e, (migrate w).1 = Raise e → is_Exception e = true → e = Exc "Abort")
  ∧ ((migrate w).1 = Ret tt →
     pending_of (migrate w).2 = []
     ∧ (∀ f, f ∈ units w → f ∈ name <$> _migrations (migrate w).2)
     ∧ (∀ st w', get_status (migrate w).2 = (Ret st, w') →
                 pending st = 0 ∧ pending_migrations st = [])).
Proof.
  destruct (migrate_run w) as (r & w1 & docs & evs & Hrun & Hd & Hm & _ & _ & _ & Hr).
  rewrite Hrun. simpl. split; [destruct Hr as [[-> _] | [->|?]]; auto|].
  split.
  { intros e -> He. destruct Hr as [[[=] _] | [[= ->]|(e' & [= <-] & He')]];
      [done|congruence]. }
  intros ->. destruct Hr as [[_ Hn] | [[=]|(e & [=] & _)]].
  assert (pending_of w1 = []) as Hp.
  { apply (pending_of_after_success w); [done|]. by rewrite Hm, fmap_app, Hn. }
  split; [done|]. split.
  - intros f Hf. rewrite Hm, fmap_app, Hn, elem_of_app, elem_of_pending_of.
    destruct (decide (f ∈ name <$> _migrations w)); auto.
  - intros st w' Hst. pose proof (get_status_inv _ _ _ Hst) as Hup.
    rewrite (get_status_up _ Hup) in Hst. injection Hst as <- <-.
    simpl. fold (pending_of w1). by rewrite Hp.
Qed.

End BatchProperties.

(* ===================================================================== *)
(** * Partial failures *)
(* ===================================================================== *)

Section PartialFailures.

Context {D : Type}.
Implicit Types (w : World D) (f filepath : string) (r : Doc)
  (migration_name : option string).

Lemma load_migration_unreadable filepath w :
  has_loader filepath = false
  ∨ (∀ src, entry_at w filepath ≠ Some (File src)) →
  ∃ w', load_migration filepath w = (Ret None, w')
        ∧ user_step w w' ∧ db w' = db w.
Proof.
  intros Hcase. destruct (has_loader filepath) eqn:Hl.
  - destruct Hcase as [[=]|Hno].
    destruct (load_migration_no_file_eq _ _ Hl Hno) as [e ->].
    eexists. split; [done|]. split; [apply user_step_trace|done].
  - rewrite (load_migration_no_loader_eq _ _ Hl).
    eexists. split; [done|]. split; [apply user_step_trace|done].
Qed.

(** X8. The record phase can fail after the unit ran. When a unit was
    loaded and its [upgrade] returned, but the server cannot be reached
    for the insert, [apply_migration] returns [False]; the database keeps
    what [upgrade] did, the ledger has no entry for the unit, and the
    unit is as pending as it was, so that the next run executes its
    [upgrade] again. *)
Theorem applied_but_unrecorded filepath w m w1 d :
  load_migration filepath w = (Ret (Some m), w1) →
  upgrade m (db w1) = (Ret tt, d) →
  outage w (S (ticks w)) = true →
  ∃ w', apply_migration filepath w = (Ret false, w')
        ∧ db w' = d ∧ _migrations w' = _migrations w
        ∧ pending_of w' = pending_of w.
Proof.
  intros Hl Hup Hout.
  destruct (load_migration_step _ _ _ _ Hl)
    as [(Hd & Hm & Ho & Ht & Hc & Hout' & _) _].
  destruct (apply_migration_upgrade_returns _ _ _ _ _ Hl Hup)
    as (w' & -> & E1 & _ & _ & E4 & _ & Hcase).
  rewrite Hout', Ht, Hout in *. destruct Hcase as [E5 _].
  exists w'. split; [done|]. split; [done|]. split; [congruence|].
  apply cached_pending; [by rewrite E1|congruence].
Qed.

(** X9. The erase phase can fail after the unit was reversed. When the
    selected unit was loaded and its [downgrade] returned, but the server
    cannot be reached for the delete, [rollback_migration] returns
    [False]; the database keeps what [downgrade] did and the ledger still
    holds the entry. *)
Theorem reversed_but_recorded migration_name w applied w0 r m w1 d :
  get_applied_migrations w = (Ret applied, w0) → applied ≠ [] →
  select_record applied migration_name = Ret (Some r) →
  load_migration (name r) w0 = (Ret (Some m), w1) →
  downgrade m (db w1) = (Ret tt, d) →
  outage w (S (ticks w)) = true →
  ∃ w', rollback_migration migration_name w = (Ret false, w')
        ∧ db w' = d ∧ _migrations w' = _migrations w.
Proof.
  intros Hg Hne Hsel Hl Hdn Hout.
  destruct (get_applied_migrations_inv _ _ _ Hg) as [_ ->].
  destruct (load_migration_step _ _ _ _ Hl)
    as [(Hd & Hm & Ho & Ht & Hc & Hout' & _) _]. simpl in *.
  rewrite (rollback_migration_selected _ _ _ _ _ Hg Hne Hsel).
  destruct (downgrade_and_erase_returns _ _ _ _ _ Hl Hdn)
    as (w' & Hrun & E1 & E2 & E3 & E4).
  rewrite Hout', Ht, Hout in *. unfold try_except. rewrite Hrun.
  eexists. split; [done|]. simpl. split; [done|]. congruence.
Qed.

(** X10. [apply_migration] does not look at the ledger. Called on a unit
    that already has an entry it runs the [upgrade] once more and, when
    that returns, records a second entry of the same name. Only the
    pending list of [migrate] keeps a unit from being applied twice. *)
Theorem apply_migration_records_again filepath w w' :
  apply_migration filepath w = (Ret true, w') →
  filepath ∈ name <$> _migrations w →
  (∃ evs, trace w' = trace w ++ evs ∧ CallUpgrade filepath ∈ evs)
  ∧ CallUpgrade filepath ∈ trace w'
  ∧ ¬ NoDup (name <$> _migrations w').
Proof.
  intros Happ Hin.
  destruct (apply_migration_spec filepath w)
    as (b & w2 & Happ' & _ & _ & _ & Hcase).
  rewrite Happ in Happ'. injection Happ' as <- <-.
  destruct Hcase as [([[=]|(e & [=] & _)] & _)
                    |(_ & (m & w1 & d & Hl & Hup & _) & Hm & _)].
  destruct (load_migration_run filepath w)
    as (o & w1' & evs & Hl' & _ & Htr & _).
  rewrite Hl in Hl'. injection Hl' as <- <-.
  destruct (apply_migration_upgrade_returns _ _ _ _ _ Hl Hup)
    as (w2 & Happ' & _ & _ & _ & _ & (evs' & Htr' & _) & _).
  rewrite Happ in Happ'. injection Happ' as _ <-.
  assert (trace w' = trace w ++ (evs ++ CallUpgrade filepath :: evs')) as Ht.
  { by rewrite Htr', Htr, <-(assoc_L (++)). }
  split_and!.
  - eexists. split; [exact Ht|]. apply elem_of_app. right. by left.
  - rewrite Ht. apply elem_of_app. right. apply elem_of_app. right. by left.
  - rewrite Hm, fmap_app. simpl. intros (_ & Hdisj & _)%NoDup_app.
    apply (Hdisj filepath Hin). by left.
Qed.

(** X11. A unit whose class overrides neither operation cannot be
    applied: with the [upgrade] of [BaseMigration], [apply_migration]
    returns [False] after printing the [NotImplementedError]; the ledger
    is as it was and the database is as loading the module left it. *)
Theorem apply_migration_not_implemented filepath w m w1 :
  load_migration filepath w = (Ret (Some m), w1) →
  upgrade m = upgrade BaseMigration →
  ∃ w', apply_migration filepath w = (Ret false, w')
        ∧ db w' = db w1 ∧ _migrations w' = _migrations w
        ∧ trace w' = trace w1 ++
            [CallUpgrade filepath;
             Printed (MsgApplyError filepath "NotImplementedError")].
Proof.
  intros Hl Hup.
  destruct (load_migration_step _ _ _ _ Hl) as [(_ & Hm & _) _].
  rewrite (apply_migration_upgrade_raises filepath w m w1
             (Exc "NotImplementedError") (db w1) Hl).
  - eexists. by repeat split.
  - by rewrite Hup.
  - done.
Qed.

(** X12. A recorded unit whose file is gone cannot be rolled back. When
    no loader fits the name of the selected record, or the directory
    holds no file of that name, [rollback_migration] returns [False]
    without running any code of the unit: the database and the ledger are
    as they were, and the entry stays. *)
Theorem rollback_unloadable migration_name w applied w0 r :
  get_applied_migrations w = (Ret applied, w0) → applied ≠ [] →
  select_record applied migration_name = Ret (Some r) →
  has_loader (name r) = false
  ∨ (∀ src, entry_at w (name r) ≠ Some (File src)) →
  ∃ w', rollback_migration migration_name w = (Ret false, w')
        ∧ db w' = db w ∧ _migrations w' = _migrations w
        ∧ ∃ evs, trace w' = trace w ++ evs ∧ ∀ n, CallDowngrade n ∉ evs.
Proof.
  intros Hg Hne Hsel Hcase.
  destruct (get_applied_migrations_inv _ _ _ Hg) as [_ ->].
  destruct (load_migration_unreadable (name r) (with_ticks (S (ticks w)) w))
    as (w1 & Hl & Hs & Hdb); [done|].
  destruct (load_migration_run (name r) (with_ticks (S (ticks w)) w))
    as (o & w2 & evs & Hl' & _ & Htr & Hevs & _).
  rewrite Hl in Hl'. injection Hl' as <- <-.
  rewrite (rollback_migration_selected _ _ _ _ _ Hg Hne Hsel).
  unfold try_except. rewrite (downgrade_and_erase_not_loaded _ _ _ Hl).
  exists w1. split; [done|]. split; [done|].
  destruct Hs as (_ & Hm & _). split; [done|].
  exists evs. split; [done|]. intros n Hin.
  apply (proj1 (Forall_forall _ _) Hevs _ Hin).
Qed.

End PartialFailures.

(* ===================================================================== *)
(** * Applying, then rolling back *)
(* ===================================================================== *)

Section Inverse.

Context {D : Type}.
Implicit Types (w : World D) (f : string) (m : MigrationObj D)
  (migration_name : option string).

Lemma load_migration_loads_as f w src m :
  has_loader f = true → entry_at w f = Some (File src) → loads_as src m →
  ∃ w', load_migration f w = (Ret (Some m), w')
        ∧ user_step w w' ∧ db w' = db w.
Proof.
  intros Hl He (body & -> & Hbody).
  destruct (Hbody (db w)) as (cls & Hmod & Hcls).
  destruct (load_migration_code_eq _ _ _ Hl He) as (w0 & Hs & Hdb & _ & ->).
  rewrite Hmod. simpl. rewrite Hcls.
  eexists. split; [done|]. split; [|done].
  destruct Hs as (? & ? & ? & ? & ? & ? & ? & ?). by split_and!.
Qed.

Lemma delete_first_appended (l : list Doc) (doc : Doc) :
  (∀ d, d ∈ l → _id d ≠ _id doc) →
  delete_first (_id doc) (l ++ [doc]) = l.
Proof.
  induction l as [|a l IH]; intros Hfresh; simpl.
  - by rewrite N.eqb_refl.
  - destruct (N.eqb_spec (_id a) (_id doc)) as [Heq|_].
    + destruct (Hfresh a); [by left|done].
    + f_equal. apply IH. intros d Hd. apply Hfresh. by right.
Qed.

(** Applying a unit and rolling back the entry just written undoes both
    the change of the database and the change of the ledger, when the
    rollback selects that entry. *)
Lemma apply_then_rollback_selected f w src m d migration_name :
  reachable w → fresh_ids w →
  has_loader f = true → entry_at w f = Some (File src) → loads_as src m →
  upgrade m (db w) = (Ret tt, d) → downgrade m d = (Ret tt, db w) →
  select_record (merge_sort applied_le (_migrations w ++ [entry_for f w]))
                migration_name = Ret (Some (entry_for f w)) →
  (apply_migration f w).1 = Ret true
  ∧ (rollback_migration migration_name (apply_migration f w).2).1 = Ret true
  ∧ db (apply_migration f w).2 = d
  ∧ _migrations (apply_migration f w).2 = _migrations w ++ [entry_for f w]
  ∧ db (rollback_migration migration_name (apply_migration f w).2).2 = db w
  ∧ _migrations (rollback_migration migration_name (apply_migration f w).2).2
    = _migrations w
  ∧ cached (migrations_dir w)
      (migrations_dir
         (rollback_migration migration_name (apply_migration f w).2).2)
  ∧ units (rollback_migration migration_name (apply_migration f w).2).2
    = units w.
Proof.
  intros Hreach Hfresh Hld He Hsrc Hup Hdn Hsel.
  destruct (load_migration_loads_as f w src m Hld He Hsrc)
    as (wl & Hl & (Hd & Hm & Ho & Ht & Hc & Hout & _) & Hdb).
  rewrite <-Hdb in Hup.
  destruct (apply_migration_upgrade_returns _ _ _ _ _ Hl Hup)
    as (w1 & Happ & E1 & E2 & E3 & E4 & _ & Hcase).
  rewrite Hout, Hreach in Hcase, Happ. destruct Hcase as [E5 E6].
  assert (entry_for f wl = entry_for f w) as Hdoc.
  { unfold entry_for. by rewrite Ho, Ht, Hc. }
  rewrite Hdoc, Hm in E5. rewrite Happ. simpl.
  split; [done|].
  assert (outage w1 (ticks w1) = false) as Hup1 by (rewrite E3, Hout; apply Hreach).
  pose proof (get_applied_migrations_up _ Hup1) as Hg.
  assert (merge_sort applied_le (_migrations w1) ≠ []) as Hne.
  { rewrite sorted_ledger_nil, E5. by destruct (_migrations w). }
  rewrite E5 in Hg, Hne.
  rewrite (rollback_migration_selected _ _ _ _ _ Hg Hne Hsel).
  destruct (load_migration_loads_as f (with_ticks (S (ticks w1)) w1) src m Hld)
    as (wl2 & Hl2 & (Hd2 & Hm2 & Ho2 & Ht2 & Hc2 & Hout2 & _) & Hdb2); [|done|].
  { unfold entry_at in *. simpl. rewrite E1. by eapply cached_lookup. }
  simpl in *.
  assert (downgrade m (db wl2) = (Ret tt, db w)) as Hdn'.
  { by rewrite Hdb2, E4. }
  destruct (downgrade_and_erase_returns (entry_for f w)
              (with_ticks (S (ticks w1)) w1) m wl2 (db w) Hl2 Hdn')
    as (w2 & Hrun & F1 & F2 & F3 & F4).
  rewrite Hout2, E3, Hout, Hreach in Hrun, F4.
  unfold try_except. rewrite Hrun. simpl.
  assert (cached (migrations_dir w) (migrations_dir w2)) as Hdir.
  { rewrite F1. eapply cached_trans; [exact Hd|]. by rewrite <-E1. }
  split; [done|]. split; [done|]. split; [done|]. split; [done|].
  split; [|split; [done|by apply cached_files]].
  rewrite F4, Hm2, E5. apply delete_first_appended.
  intros d0 Hd0. simpl. by apply Hfresh.
Qed.

Lemma has_loader_nonempty f : has_loader f = true → f ≠ "".
Proof. by intros H ->. Qed.

(** X13. Applying a unit and then rolling it back by name restores the
    database and the ledger. For a unit that has no entry yet, whose
    loading leaves the database alone and whose [downgrade] undoes its
    [upgrade] on the present database, with the server reachable:
    [apply_migration] returns [True] and records the unit, the rollback
    by its name returns [True], and afterwards the database and the
    ledger are exactly what they were. The directory is what it was up
    to the bytecode cache, with the same units. *)
Theorem apply_then_rollback_by_name f w src m d :
  reachable w → fresh_ids w →
  has_loader f = true → entry_at w f = Some (File src) → loads_as src m →
  upgrade m (db w) = (Ret tt, d) → downgrade m d = (Ret tt, db w) →
  f ∉ name <$> _migrations w →
  (apply_migration f w).1 = Ret true
  ∧ (rollback_migration (Some f) (apply_migration f w).2).1 = Ret true
  ∧ db (apply_migration f w).2 = d
  ∧ _migrations (apply_migration f w).2 = _migrations w ++ [entry_for f w]
  ∧ db (rollback_migration (Some f) (apply_migration f w).2).2 = db w
  ∧ _migrations (rollback_migration (Some f) (apply_migration f w).2).2
    = _migrations w
  ∧ cached (migrations_dir w)
      (migrations_dir (rollback_migration (Some f) (apply_migration f w).2).2)
  ∧ units (rollback_migration (Some f) (apply_migration f w).2).2 = units w.
Proof.
  intros Hreach Hfresh Hld He Hsrc Hup Hdn Hnew.
  apply (apply_then_rollback_selected f w src m d); try done.
  rewrite (select_record_named _ _ (has_loader_nonempty _ Hld)).
  pose proof (find_by_name
                (merge_sort applied_le (_migrations w ++ [entry_for f w])) f)
    as Hf.
  destruct (List.find _ _) as [r|].
  - destruct Hf as [Hin Hname]. rewrite sorted_ledger_perm in Hin.
    apply elem_of_app in Hin as [Hin|Hin%list_elem_of_singleton].
    + destruct Hnew. rewrite <-Hname. by apply list_elem_of_fmap_2.
    + by subst r.
  - destruct Hf. rewrite sorted_ledger_perm, fmap_app. set_solver.
Qed.

(** X14. The same with no name, when the time the new entry is stored
    with, the clock reading of the application cut to whole
    milliseconds, is strictly later than every [applied_at] of the
    ledger: the rollback of the latest entry then undoes the unit just
    applied and restores the database and the ledger. *)
Theorem apply_then_rollback_latest f w src m d :
  reachable w → fresh_ids w →
  has_loader f = true → entry_at w f = Some (File src) → loads_as src m →
  upgrade m (db w) = (Ret tt, d) → downgrade m d = (Ret tt, db w) →
  (∀ e, e ∈ _migrations w →
        dt_ltb (applied_at e) (to_millis (wall_clock w (ticks w))) = true) →
  (apply_migration f w).1 = Ret true
  ∧ (rollback_migration None (apply_migration f w).2).1 = Ret true
  ∧ db (apply_migration f w).2 = d
  ∧ _migrations (apply_migration f w).2 = _migrations w ++ [entry_for f w]
  ∧ db (rollback_migration None (apply_migration f w).2).2 = db w
  ∧ _migrations (rollback_migration None (apply_migration f w).2).2
    = _migrations w
  ∧ cached (migrations_dir w)
      (migrations_dir (rollback_migration None (apply_migration f w).2).2)
  ∧ units (rollback_migration None (apply_migration f w).2).2 = units w.
Proof.
  intros Hreach Hfresh Hld He Hsrc Hup Hdn Hlater.
  apply (apply_then_rollback_selected f w src m d); try done.
  assert (merge_sort applied_le (_migrations w ++ [entry_for f w]) ≠ []) as Hne.
  { rewrite sorted_ledger_nil. by destruct (_migrations w). }
  destruct (select_record_latest _ Hne None eq_refl) as (r & -> & Hlast).
  destruct (last_sorted_latest _ _ Hlast) as [Hin Hmax].
  apply elem_of_app in Hin as [Hin|Hin%list_elem_of_singleton]; [|by subst r].
  assert (applied_le (entry_for f w) r) as Hle.
  { apply Hmax. apply elem_of_app. right. by left. }
  unfold applied_le, dt_le in Hle. simpl in Hle.
  by rewrite (Hlater r Hin) in Hle.
Qed.

End Inverse.

(* ===================================================================== *)
(** * Authoring a unit *)
(* ===================================================================== *)

Section Authoring.

Context {D : Type}.
Variable lower : string → string.
Variable isalnum : ascii → bool.
Variable template : string → datetime → Source D.
Implicit Types (w : World D) (description f : string).

Lemma unit_name_passes_filter t text :
  suffix (strftime t +:+ "_" +:+ text +:+ ".py") = ".py"
  ∧ PyStr.startswith "__" (strftime t +:+ "_" +:+ text +:+ ".py") = false.
Proof.
  split.
  - rewrite <-!append_assoc. apply suffix_stem_py. rewrite append_assoc.
    intros Heq. apply (f_equal String.length) in Heq.
    by rewrite length_append, strftime_length in Heq.
  - apply startswith_underscores; [|apply strftime_no_underscore].
    intros Heq. apply (f_equal String.length) in Heq.
    by rewrite strftime_length in Heq.
Qed.

Lemma create_migration_inv description w f w' :
  create_migration lower isalnum template description w = (Ret f, w') →
  ∃ d, migrations_dir w = Some d
    ∧ f = strftime (wall_clock w (ticks w)) +:+ "_"
          +:+ safe_description lower isalnum description +:+ ".py"
    ∧ w' = with_dir (Some (<[f := File (template description
                                           (wall_clock w (S (ticks w))))]> d))
                    (with_ticks (S (S (ticks w))) w).
Proof.
  rewrite create_migration_eq. cbn zeta.
  destruct (migrations_dir w) as [d|]; [|done].
  destruct (open_error w _); [done|].
  destruct (d !! _) as [[|?]|]; [done|..]; intros [= <- <-]; by exists d.
Qed.

(** X15. A successful [create_migration] changes one entry of the
    directory and nothing else: the database, the ledger and the console
    are untouched, every other entry is what it was, and the entry of the
    new name holds the template, whatever file was there before. The
    discovered units afterwards are the ones before and the new name. *)
Theorem create_migration_touches_one_entry description w f w' :
  create_migration lower isalnum template description w = (Ret f, w') →
  db w' = db w ∧ _migrations w' = _migrations w ∧ trace w' = trace w
  ∧ (∀ n, n ≠ f → entry_at w' n = entry_at w n)
  ∧ entry_at w' f
    = Some (File (template description (wall_clock w (S (ticks w)))))
  ∧ (∀ n, n ∈ units w' ↔ n = f ∨ n ∈ units w).
Proof.
  intros (d & Hd & Hf & ->)%create_migration_inv.
  split; [done|]. split; [done|]. split; [done|]. unfold entry_at, units.
  rewrite Hd. unfold with_dir. cbn [migrations_dir mbind option_bind].
  split_and!.
  - intros n Hn. by rewrite lookup_insert_ne.
  - by rewrite lookup_insert_eq.
  - intros n. rewrite !elem_of_migration_files.
    destruct (decide (n = f)) as [->|Hn].
    + rewrite lookup_insert_eq. split; [by left|]. intros _.
      split; [by eexists|]. rewrite Hf. apply unit_name_passes_filter.
    + rewrite lookup_insert_ne by done. naive_solver.
Qed.

(** X16. After a successful [create_migration] the new unit is pending
    unless the ledger already holds an entry of its name, and every unit
    that was pending still is. *)
Theorem created_unit_is_pending description w f w' :
  create_migration lower isalnum template description w = (Ret f, w') →
  (f ∉ name <$> _migrations w → f ∈ pending_of w')
  ∧ (∀ n, n ∈ pending_of w → n ∈ pending_of w').
Proof.
  intros (d & Hd & Hf & ->)%create_migration_inv.
  assert (f ∈ units (with_dir (Some (<[f := File (template description
                                         (wall_clock w (S (ticks w))))]> d))
                              (with_ticks (S (S (ticks w))) w))) as Hin.
  { unfold units, with_dir. cbn [migrations_dir].
    apply elem_of_migration_files.
    rewrite lookup_insert_eq. split; [by eexists|].
    rewrite Hf. apply unit_name_passes_filter. }
  split.
  - intros Hnew. by apply elem_of_pending_of.
  - intros n [Hn Hnot]%elem_of_pending_of. apply elem_of_pending_of.
    split; [|done]. destruct (decide (n = f)) as [->|Hne]; [done|].
    unfold units, with_dir in *. rewrite Hd in Hn. cbn [migrations_dir].
    apply elem_of_migration_files in Hn as ([src Hsrc] & ? & ?).
    apply elem_of_migration_files. rewrite lookup_insert_ne by done. eauto.
Qed.

Lemma contains_all_digits c s :
  all_digits s = true →
  ((48 <=? N_of_ascii c) && (N_of_ascii c <=? 57))%N = false →
  PyStr.contains c s = false.
Proof.
  intros Hs Hc. induction s as [|a s IH]; [done|]. simpl in *.
  apply andb_true_iff in Hs as [Ha Hs]. rewrite (IH Hs), orb_false_r.
  destruct (Ascii.eqb_spec a c) as [->|]; [congruence|done].
Qed.

Lemma contains_sanitized c s :
  isalnum c = false → c ≠ "_"%char →
  PyStr.contains c (sanitized isalnum s) = false.
Proof.
  intros Hc Hu. induction s as [|a s IH]; [done|]. cbn [sanitized].
  destruct (Ascii.eqb a " " || Ascii.eqb a "-").
  - cbn [PyStr.contains]. rewrite IH, orb_false_r.
    by destruct (Ascii.eqb_spec "_" c).
  - destruct (isalnum a || Ascii.eqb a "_") eqn:Ha; [|done].
    cbn [PyStr.contains]. rewrite IH, orb_false_r.
    destruct (Ascii.eqb_spec a c) as [->|]; [|done].
    rewrite Hc in Ha. simpl in Ha. by apply Ascii.eqb_eq in Ha.
Qed.

(** X17. The name [create_migration] gives a file holds no slash, as long
    as the slash is not alphanumeric: whatever the description says, the
    file is made in the migrations directory itself. *)
Theorem created_name_has_no_slash description w f w' :
  isalnum "/" = false →
  create_migration lower isalnum template description w = (Ret f, w') →
  PyStr.contains "/" f = false.
Proof.
  intros Hsl (d & Hd & -> & _)%create_migration_inv.
  rewrite safe_description_sanitized, !contains_append.
  rewrite (contains_all_digits "/" _ (strftime_all_digits _) eq_refl).
  by rewrite (contains_sanitized "/" _ Hsl).
Qed.

End Authoring.

(* ===================================================================== *)
(** * Status, pending list and rollback together *)
(* ===================================================================== *)

Section Agreement.

Context {D : Type}.
Implicit Types (w : World D) (migration_name : option string).

(** X18. The status and the pending list agree: on the same world,
    [get_status] and [get_pending_migrations] compute the same pending
    names, in the same order, although the first reads the directory
    before the ledger and the second after it; and the applied entries
    of the status are what [get_applied_migrations] returns. *)
Theorem status_agrees_with_pending w st w' :
  get_status w = (Ret st, w') →
  get_pending_migrations w = (Ret (pending_migrations st), w')
  ∧ get_applied_migrations w = (Ret (applied_migrations st), w')
  ∧ pending st = length (pending_migrations st)
  ∧ applied st = length (applied_migrations st).
Proof.
  intros Hst. pose proof (get_status_inv _ _ _ Hst) as Hup.
  rewrite (get_status_up _ Hup) in Hst. injection Hst as <- <-. simpl.
  rewrite (get_pending_migrations_up _ Hup), (get_applied_migrations_up _ Hup).
  done.
Qed.

(** X19. A successful rollback takes exactly the selected entry out of
    the ledger and makes its unit pending again. With unique names and
    unique [_id]s in the ledger: the entry removed bears the name asked
    for when one was given, every other entry stays, no entry of that
    name is left, and the unit is pending afterwards when its file is
    among the discovered units. *)
Theorem rollback_makes_pending migration_name w w' :
  rollback_migration migration_name w = (Ret true, w') →
  NoDup (name <$> _migrations w) → NoDup (_id <$> _migrations w) →
  ∃ r, r ∈ _migrations w
    ∧ (∀ n, migration_name = Some n → n ≠ "" → name r = n)
    ∧ (∀ d, d ∈ _migrations w' ↔ d ∈ _migrations w ∧ d ≠ r)
    ∧ (name r ∉ name <$> _migrations w')
    ∧ (name r ∈ units w → name r ∈ pending_of w').
Proof.
  intros Hrun Hnames Hids.
  destruct (rollback_migration_spec migration_name w)
    as (b & w2 & Hrun' & Hd & Hcase).
  rewrite Hrun in Hrun'. injection Hrun' as <- <-.
  destruct Hcase as [[[[=]|(e & [=] & _)] _]
                    |(_ & applied & w0 & r & m & w1 & d & Hg & _
                      & Hsel & Hin & _ & _ & Hm)].
  pose proof (delete_first_elem_of _ _ Hids Hin) as Hdel.
  rewrite <-Hm in Hdel.
  assert (name r ∉ name <$> _migrations w') as Hgone.
  { intros (d0 & Hname & [Hd0 Hne]%Hdel)%list_elem_of_fmap.
    apply Hne. symmetry. by eapply (NoDup_key_eq name). }
  exists r. split_and!; try done.
  - intros n -> Hn. rewrite (select_record_named _ _ Hn) in Hsel.
    injection Hsel as Hsel.
    pose proof (find_by_name applied n) as Hf. rewrite Hsel in Hf.
    apply Hf.
  - intros Hu. apply elem_of_pending_of. split; [|done].
    unfold units in *. by rewrite (cached_files _ _ Hd).
Qed.

End Agreement.

(* ===================================================================== *)
(** * From the description to the ledger *)
(* ===================================================================== *)

Section DescriptionRoundTrip.

Context {D : Type}.
Variable lower : string → string.
Variable isalnum : ascii → bool.
Variable template : string → datetime → Source D.
Implicit Types (w : World D) (given f : string).

(** X20. The description given to [create_migration] comes back in the
    ledger. When the created unit is applied, the entry written has the
    file name as [name], the name without [.py] as [version], and as
    [description] the sanitised text that [create_migration] put after
    the timestamp, whatever characters that text holds. *)
Theorem created_unit_description given w f w1 w2 :
  create_migration lower isalnum template given w = (Ret f, w1) →
  apply_migration f w1 = (Ret true, w2) →
  ∃ doc, _migrations w2 = _migrations w ++ [doc]
    ∧ name doc = f
    ∧ f = version doc +:+ ".py"
    ∧ version doc = strftime (wall_clock w (ticks w)) +:+ "_"
                    +:+ description doc
    ∧ description doc = safe_description lower isalnum given.
Proof.
  intros (d & Hd & Hf & ->)%create_migration_inv Happ.
  destruct (apply_migration_spec f
              (with_dir (Some (<[f := File (template given
                                              (wall_clock w (S (ticks w))))]> d))
                        (with_ticks (S (S (ticks w))) w)))
    as (b & w' & Happ' & _ & _ & _ & Hcase).
  rewrite Happ in Happ'. injection Happ' as <- <-.
  destruct Hcase as [([[=]|(e & [=] & _)] & _)|(_ & _ & Hm & _)].
  eexists. split; [exact Hm|]. simpl.
  set (t := wall_clock w (ticks w)) in *.
  set (text := safe_description lower isalnum given) in *.
  assert (stem f = strftime t +:+ "_" +:+ text) as Hstem.
  { rewrite Hf, <-!append_assoc.
    destruct (suffix_stem_py ((strftime t +:+ "_") +:+ text)) as [_ ->];
      [|done].
    rewrite append_assoc. intros Heq. apply (f_equal String.length) in Heq.
    by rewrite length_append, strftime_length in Heq. }
  assert (after_first "_" (stem f) = text) as Hdescr.
  { rewrite Hstem. apply (after_first_append "_"), strftime_no_underscore. }
  split; [done|]. rewrite Hdescr, Hstem. split; [|done].
  by rewrite Hf, !append_assoc.
Qed.

End DescriptionRoundTrip.

(* ===================================================================== *)
(** * The further theorems at concrete worlds *)
(* ===================================================================== *)

Section MoreInstances.

Import Sample MoreSamples.

(** A URL without a path: the host and port become the database name. *)
Lemma database_from_url_witness :
  Config.mongodb_database (Config.settings env_no_path) = "localhost:27017".
Proof.
  apply (database_from_url env_no_path "mongodb:/" "localhost:27017");
    reflexivity || discriminate.
Defined.

(** A URL with options: the database it names is not used. *)
Lemma database_fallback_witness :
  Config.mongodb_database (Config.settings env_with_options) = "nauta_db".
Proof.
  apply (database_fallback env_with_options
           "mongodb://db.example.org/shop?retryWrites=true");
    [reflexivity..|].
  right. exists "mongodb://db.example.org", "shop?retryWrites=true".
  split; [reflexivity|]. split; [reflexivity|]. right. reflexivity.
Defined.

Lemma migrate_keeps_names_unique_witness :
  NoDup (name <$> _migrations (migrate (world (Some two_units) [docA])).2).
Proof.
  apply (migrate_keeps_names_unique (world (Some two_units) [docA])).
  vm_compute. repeat constructor; set_solver.
Defined.

Lemma applied_but_unrecorded_witness :
  ∃ w', apply_migration init (world_down [1%nat] (Some two_units) [])
        = (Ret false, w')
        ∧ db w' = 1 ∧ _migrations w' = [].
Proof.
  edestruct (applied_but_unrecorded init (world_down [1%nat] (Some two_units) []))
    as (w' & Happ & Hdb & Hm & _).
  - vm_compute. reflexivity.
  - vm_compute. reflexivity.
  - vm_compute. reflexivity.
  - exists w'. split; [exact Happ|]. split; [exact Hdb|exact Hm].
Defined.

Lemma reversed_but_recorded_witness :
  ∃ w', rollback_migration None (world_down [1%nat] (Some two_units) [docA])
        = (Ret false, w')
        ∧ db w' = -1 ∧ _migrations w' = [docA].
Proof.
  edestruct (reversed_but_recorded
               None (world_down [1%nat] (Some two_units) [docA]))
    as (w' & Hrun & Hdb & Hm).
  - vm_compute. reflexivity.
  - discriminate.
  - vm_compute. reflexivity.
  - vm_compute. reflexivity.
  - vm_compute. reflexivity.
  - vm_compute. reflexivity.
  - exists w'. split; [exact Hrun|]. split; [exact Hdb|exact Hm].
Defined.

Lemma apply_migration_records_again_witness :
  ¬ NoDup (name <$> _migrations
             (apply_migration init (world (Some two_units) [docA])).2).
Proof.
  apply (apply_migration_records_again init (world (Some two_units) [docA])).
  - vm_compute. reflexivity.
  - vm_compute. left.
Defined.

Lemma apply_migration_not_implemented_witness :
  ∃ w', apply_migration init (world (Some abstract_unit) []) = (Ret false, w')
        ∧ _migrations w' = [].
Proof.
  edestruct (apply_migration_not_implemented
               init (world (Some abstract_unit) []))
    as (w' & Happ & _ & Hm & _).
  - vm_compute. reflexivity.
  - reflexivity.
  - exists w'. split; [exact Happ|exact Hm].
Defined.

(** The file of [add_index] is gone: its entry cannot be rolled back. *)
Lemma rollback_unloadable_witness :
  ∃ w', rollback_migration None (world (Some one_bad_unit) [docB])
        = (Ret false, w')
        ∧ db w' = 0 ∧ _migrations w' = [docB].
Proof.
  edestruct (rollback_unloadable None (world (Some one_bad_unit) [docB]))
    as (w' & Hrun & Hdb & Hm & _).
  - vm_compute. reflexivity.
  - discriminate.
  - vm_compute. reflexivity.
  - right. intros src. vm_compute. discriminate.
  - exists w'. split; [exact Hrun|]. split; [exact Hdb|exact Hm].
Defined.

Lemma good_loads_as : loads_as good good_instance.
Proof.
  eexists. split; [reflexivity|]. intros d. eexists. split; reflexivity.
Qed.

Lemma apply_then_rollback_by_name_witness :
  _migrations (rollback_migration (Some add_index)
                 (apply_migration add_index
                    (world (Some two_units) [docA])).2).2 = [docA]
  ∧ db (rollback_migration (Some add_index)
          (apply_migration add_index (world (Some two_units) [docA])).2).2 = 0.
Proof.
  destruct (apply_then_rollback_by_name add_index
              (world (Some two_units) [docA]) good good_instance 1)
    as (_ & _ & _ & _ & Hdb & Hm & _).
  - intros i. reflexivity.
  - intros d Hd. apply list_elem_of_singleton in Hd. subst d. discriminate.
  - reflexivity.
  - vm_compute. reflexivity.
  - exact good_loads_as.
  - reflexivity.
  - reflexivity.
  - intros Hin. apply list_elem_of_singleton in Hin. discriminate Hin.
  - split; [exact Hm|exact Hdb].
Defined.

Lemma apply_then_rollback_latest_witness :
  _migrations (rollback_migration None
                 (apply_migration add_index
                    (world (Some two_units) [docA])).2).2 = [docA]
  ∧ db (rollback_migration None
          (apply_migration add_index (world (Some two_units) [docA])).2).2 = 0.
Proof.
  destruct (apply_then_rollback_latest add_index
              (world (Some two_units) [docA]) good good_instance 1)
    as (_ & _ & _ & _ & Hdb & Hm & _).
  - intros i. reflexivity.
  - intros d Hd. apply list_elem_of_singleton in Hd. subst d. discriminate.
  - reflexivity.
  - vm_compute. reflexivity.
  - exact good_loads_as.
  - reflexivity.
  - reflexivity.
  - intros e He. apply list_elem_of_singleton in He. subst e. reflexivity.
  - split; [exact Hm|exact Hdb].
Defined.

Lemma create_migration_touches_one_entry_witness :
  let w' := (create_migration lower isalnum template "Add Users-Table! v2"
               (world (Some two_units) [docA])).2 in
  _migrations w' = [docA]
  ∧ entry_at w' init = entry_at (world (Some two_units) [docA]) init.
Proof.
  destruct (create_migration_touches_one_entry lower isalnum template
              "Add Users-Table! v2" (world (Some two_units) [docA])
              "20251105151500_add_users_table_v2.py"
              (create_migration lower isalnum template "Add Users-Table! v2"
                 (world (Some two_units) [docA])).2)
    as (_ & Hm & _ & Hother & _).
  - vm_compute. reflexivity.
  - split; [exact Hm|]. apply Hother. discriminate.
Defined.

Lemma created_unit_is_pending_witness :
  "20251105151500_add_users_table_v2.py"
  ∈ pending_of (create_migration lower isalnum template "Add Users-Table! v2"
                  (world (Some two_units) [docA])).2.
Proof.
  destruct (created_unit_is_pending lower isalnum template
              "Add Users-Table! v2" (world (Some two_units) [docA])
              "20251105151500_add_users_table_v2.py"
              (create_migration lower isalnum template "Add Users-Table! v2"
                 (world (Some two_units) [docA])).2)
    as (Hnew & _).
  - vm_compute. reflexivity.
  - apply Hnew. intros Hin. apply list_elem_of_singleton in Hin.
    discriminate Hin.
Defined.

Lemma created_name_has_no_slash_witness :
  ∃ f, (create_migration lower isalnum template "../../etc/cron.d/x"
          (world (Some two_units) [])).1 = Ret f
       ∧ PyStr.contains "/" f = false.
Proof.
  exists "20251105151500_etccrondx.py". split; [vm_compute; reflexivity|].
  apply (created_name_has_no_slash lower isalnum template "../../etc/cron.d/x"
           (world (Some two_units) []) _
           (create_migration lower isalnum template "../../etc/cron.d/x"
              (world (Some two_units) [])).2).
  - reflexivity.
  - vm_compute. reflexivity.
Defined.

Lemma created_unit_description_witness :
  let w1 := (create_migration lower isalnum template "Add Users-Table! v2"
               (world (Some two_units) [])).2 in
  ∃ doc, _migrations
           (apply_migration "20251105151500_add_users_table_v2.py" w1).2
         = [doc]
    ∧ description doc = "add_users_table_v2".
Proof.
  destruct (created_unit_description lower isalnum template
              "Add Users-Table! v2" (world (Some two_units) [])
              "20251105151500_add_users_table_v2.py"
              (create_migration lower isalnum template "Add Users-Table! v2"
                 (world (Some two_units) [])).2
              (apply_migration "20251105151500_add_users_table_v2.py"
                 (create_migration lower isalnum template "Add Users-Table! v2"
                    (world (Some two_units) [])).2).2)
    as (doc & Hm & _ & _ & _ & Hd).
  - vm_compute. reflexivity.
  - vm_compute. reflexivity.
  - exists doc. split; [exact Hm|]. rewrite Hd. vm_compute. reflexivity.
Defined.

Lemma status_agrees_with_pending_witness :
  ∃ st, (get_status (world (Some two_units) [docA])).1 = Ret st
        ∧ (get_pending_migrations (world (Some two_units) [docA])).1
          = Ret (pending_migrations st).
Proof.
  destruct (get_status (world (Some two_units) [docA])) as [[st|e] w'] eqn:Hst.
  - destruct (status_agrees_with_pending _ _ _ Hst) as (Hp & _).
    exists st. split; [reflexivity|]. by rewrite Hp.
  - vm_compute in Hst. discriminate Hst.
Defined.

Lemma rollback_makes_pending_witness :
  ∃ r, r ∈ [docA; docB]
    ∧ (name r ∉ name <$> _migrations
                 (rollback_migration None
                    (world (Some two_units) [docA; docB])).2)
    ∧ name r ∈ pending_of (rollback_migration None
                             (world (Some two_units) [docA; docB])).2.
Proof.
  destruct (rollback_makes_pending None (world (Some two_units) [docA; docB])
              (rollback_migration None (world (Some two_units) [docA; docB])).2)
    as (r & Hr & _ & _ & Hgone & Hpend).
  - vm_compute. reflexivity.
  - vm_compute. repeat constructor; set_solver.
  - vm_compute. repeat constructor; set_solver.
  - exists r. split; [exact Hr|]. split; [exact Hgone|]. apply Hpend.
    apply elem_of_cons in Hr as [->|Hr].
    + vm_compute. left.
    + apply list_elem_of_singleton in Hr as ->. vm_compute. right. left.
Defined.

End MoreInstances.
